(** * CustomAgent: a tabular epsilon-greedy agent with JSON persistence

    Shallow embedding of [examples/custom_agent.py] (class [CustomAgent]).

    Modelling decisions, all taken from the source:
    - a Python [dict] with string keys is an insertion-ordered association
      list ([Dict.t]): [d[k] = v] overwrites in place or appends, iteration
      follows insertion order (this is what [list(d.keys())] and
      [max(d, key=d.get)] see);
    - a Python [float] is an exact rational ([Q]): the numbers of the
      model are finite and never NaN, their comparisons are those of
      binary64, and an arithmetic expression stands for the same
      expression of the source.  What binary64 rounding does to line 171
      is shown on [new_value_binary64], the same line over the machine's
      floats.  Arithmetic results are compared with [==] ([Qeq]), copied
      values with [=];
    - a method is a computation [M A] over the machine state (the object
      [self] and the world: files, logger, random generator, clock) that
      either returns or raises; the state reached survives a raise, as
      mutation does in Python, and [try_except] is [except Exception];
    - every [logger] call is journalled with its level and a structured
      message (the f-string's arguments, unformatted); a record at level
      INFO or above is also appended to the file [agent_log.log], as the
      [FileHandler] of lines 13-20 does (the configuration of these lines
      is taken to be the one in force);
    - [random.random()] is [k / 2^53] for a raw 53-bit draw [k], as CPython
      computes it; [random.choice] indexes by a raw draw reduced modulo the
      length; [random.uniform(a, b)] is [a + (b - a) * random()];
    - [state: Any] is taken after [str(state)]: states are strings;
    - a path names a directory, a regular file (open to reading and
      writing, or to one of them only), or nothing; a file's text is no
      JSON, JSON other than an object, or a document with the keys
      [save_config] writes, each one optional and typed as it is written.
      Documents with a value of another type ([null] for the behaviors,
      say) are outside the model, and with them the objects that hold
      such a value: a [CustomAgent] here is a well-typed one;
    - paths are compared as strings: two paths that name the same file
      are spelled alike;
    - lines 86-87 of the source, inside [save_config], are a stray
      non-Python fragment; the method is modelled by its Python statements. *)

From Stdlib Require Import String List ZArith NArith QArith Qabs Bool Lia Lqa.
From Stdlib Require Import DecimalString DecimalNat.
From Corelib Require PrimFloat SpecFloat FloatOps FloatAxioms.
Import ListNotations.

Set Implicit Arguments.
Local Open Scope string_scope.
Local Open Scope list_scope.

(* ------------------------------------------------------------------ *)
(** ** Python dictionaries with string keys *)

Module Dict.

Definition t (V : Type) := list (string * V).

Section Operations.
Context {V : Type}.

(** [d.get(k)] as an option: the first binding of [k]. *)
Fixpoint lookup (k : string) (d : t V) : option V :=
  match d with
  | [] => None
  | (k', v) :: d' => if String.eqb k k' then Some v else lookup k d'
  end.

(** [d.get(k, dflt)]. *)
Definition get (k : string) (d : t V) (dflt : V) : V :=
  match lookup k d with
  | Some v => v
  | None => dflt
  end.

(** [k in d]. *)
Definition contains (k : string) (d : t V) : bool :=
  match lookup k d with
  | Some _ => true
  | None => false
  end.

(** [d[k] = v]: overwrite where [k] is bound, append a new binding
    otherwise. *)
Fixpoint set (k : string) (v : V) (d : t V) : t V :=
  match d with
  | [] => [(k, v)]
  | (k', v') :: d' =>
      if String.eqb k k' then (k, v) :: d' else (k', v') :: set k v d'
  end.

(** [list(d.keys())]. *)
Definition keys (d : t V) : list string := map fst d.

(** [{k: v for k in ks}]. *)
Definition comprehension (ks : list string) (v : V) : t V :=
  fold_left (fun d k => set k v d) ks [].

End Operations.

End Dict.

(* ------------------------------------------------------------------ *)
(** ** Exceptions, log records, files *)

(** The exceptions the modelled statements can raise; all of them are
    subclasses of [Exception]. *)
Inductive exn : Type :=
| KeyError (k : string)      (* [d[k]] on an absent key *)
| IndexError                 (* [random.choice] on an empty sequence *)
| ValueError                 (* [max] on an empty iterable *)
| OSError                    (* [open] on a path that cannot be opened *)
| JSONDecodeError            (* [json.load] on text that is not JSON *)
| AttributeError.            (* [.get] on a JSON value that is no object *)

Inductive level : Type := DEBUG | INFO | WARNING | ERROR.

(** One constructor per [logger] call of the source. *)
Inductive message : Type :=
| msg_initialized (id : string) (b : Dict.t Q)
| msg_loaded (id path : string)
| msg_id_mismatch
| msg_no_config (path : string)
| msg_load_error (id : string) (e : exn)
| msg_proceed_default
| msg_saved (id path : string)
| msg_save_error (id : string) (e : exn)
| msg_state_updated (id s : string)
| msg_no_state_random (id : string)
| msg_exploring (id action : string)
| msg_exploiting (id action : string)
| msg_performed (id action : string) (reward : Q)
| msg_perform_error (action id : string) (e : exn)
| msg_no_state_update (id : string)
| msg_updated (id action : string) (new_value : Q)
| msg_update_error (id : string) (e : exn)
| msg_iteration (id s action : string) (reward : Q)
| msg_evolve_error (id : string) (e : exn).

(** The persisted document of [save_config]; [json.load] may find any of
    its keys absent, which is what [config.get] is there for.  A value
    that is present has the type [save_config] writes; documents with a
    value of another type are not among these. *)
Record config : Type := mk_config {
  cfg_agent_id : option string;
  cfg_behaviors : option (Dict.t Q);
  cfg_experience : option (Dict.t (Dict.t Q));
  cfg_total_rewards : option Q;
  cfg_timestamp : option nat
}.

(** What [json.load] makes of a file's text. *)
Inductive text : Type :=
| Malformed                  (* not JSON (an empty file included) *)
| NonObject                  (* JSON, but a list, number, string... *)
| Object (c : config).

(** What a path names, as [os.path.exists] and [open] see it.  A
    directory exists but cannot be opened, for reading or for writing; a
    regular file may be open to both, to reading only or to writing only;
    an unreachable path (one below a directory that is missing, or that
    is closed to its user) names nothing, and nothing can be created
    there. *)
Inductive file : Type :=
| Directory
| Regular (content : text)
| ReadOnly (content : text)
| WriteOnly (content : text)
| Unreachable.

Record world : Type := mk_world {
  files : Dict.t file;                   (* path -> file; unbound = absent,
                                            and can be created *)
  journal : list (level * message);      (* logger calls, oldest first *)
  entropy : nat -> N;                    (* raw draws of the generator *)
  cursor : nat;                          (* draws consumed so far *)
  clock : nat                            (* [datetime.now()] *)
}.

(* ------------------------------------------------------------------ *)
(** ** The agent object *)

Record CustomAgent : Type := mk_agent {
  agent_id : string;
  behaviors : Dict.t Q;
  learning_rate : Q;
  exploration_rate : Q;
  config_path : string;
  experience : Dict.t (Dict.t Q);
  current_state : option string;
  total_rewards : Q
}.

Record machine : Type := mk_machine {
  self : CustomAgent;
  env : world
}.

(* ------------------------------------------------------------------ *)
(** ** Computations that may raise *)

Inductive outcome (A : Type) : Type :=
| Return (a : A)
| Raise (e : exn).
Arguments Return {A} a.
Arguments Raise {A} e.

Definition M (A : Type) : Type := machine -> outcome A * machine.

Definition ret {A} (a : A) : M A := fun m => (Return a, m).

Definition bind {A B} (c : M A) (k : A -> M B) : M B :=
  fun m =>
    match c m with
    | (Return a, m') => k a m'
    | (Raise e, m') => (Raise e, m')
    end.

Definition raise {A} (e : exn) : M A := fun m => (Raise e, m).

(** [try: body / except Exception as e: handler e]. *)
Definition try_except {A} (body : M A) (handler : exn -> M A) : M A :=
  fun m =>
    match body m with
    | (Return a, m') => (Return a, m')
    | (Raise e, m') => handler e m'
    end.

Declare Scope py_scope.
Delimit Scope py_scope with py.
Notation "x <- c ;; k" := (bind c (fun x => k))
  (at level 61, c at next level, right associativity) : py_scope.
Notation "c ;; k" := (bind c (fun _ => k))
  (at level 61, right associativity) : py_scope.
Local Open Scope py_scope.

Definition get_self : M CustomAgent := fun m => (Return (self m), m).

Definition modify_self (f : CustomAgent -> CustomAgent) : M unit :=
  fun m => (Return tt, mk_machine (f (self m)) (env m)).

Definition get_env : M world := fun m => (Return (env m), m).

Definition modify_env (f : world -> world) : M unit :=
  fun m => (Return tt, mk_machine (self m) (f (env m))).

(** The file of the [FileHandler] that lines 13-20 install. *)
Definition log_file : string := "agent_log.log".

(** The logger's level is INFO (line 14): a DEBUG record reaches no
    handler. *)
Definition reaches_handlers (l : level) : bool :=
  match l with
  | DEBUG => false
  | INFO | WARNING | ERROR => true
  end.

(** A file after a line of log was added at its end: whatever the text
    was, it is no JSON any more. *)
Definition appended (f : file) : file :=
  match f with
  | Directory => Directory
  | Regular _ => Regular Malformed
  | ReadOnly _ => ReadOnly Malformed
  | WriteOnly _ => WriteOnly Malformed
  | Unreachable => Unreachable
  end.

(** The files after the [FileHandler] wrote one record.  The handler
    holds its file open since the module was loaded; the record lands in
    what [log_file] names, when that is still the handler's file (the
    path is unbound when the file has been removed since). *)
Definition log_line (fs : Dict.t file) : Dict.t file :=
  match Dict.lookup log_file fs with
  | Some f => Dict.set log_file (appended f) fs
  | None => fs
  end.
Arguments log_line fs : simpl nomatch.

(** [logger.<level>(msg)]: the call is journalled; from INFO upwards the
    record is also written to [log_file] (and to the console, which is
    not modelled). *)
Definition logger (l : level) (msg : message) : M unit :=
  modify_env (fun w =>
    mk_world (if reaches_handlers l then log_line (files w) else files w)
             (journal w ++ [(l, msg)]) (entropy w) (cursor w) (clock w)).

(** [datetime.now()]. *)
Definition datetime_now : M nat :=
  w <- get_env ;;
  modify_env (fun w =>
    mk_world (files w) (journal w) (entropy w) (cursor w) (S (clock w))) ;;
  ret (clock w).

(** The next raw draw of the generator. *)
Definition next_draw : M N :=
  w <- get_env ;;
  modify_env (fun w =>
    mk_world (files w) (journal w) (entropy w) (S (cursor w)) (clock w)) ;;
  ret (entropy w (cursor w)).

Definition two_53 : positive := 9007199254740992.

(** [random.random()]: a float in [0, 1). *)
Definition random_random : M Q :=
  k <- next_draw ;;
  ret (Z.of_N (k mod Npos two_53) # two_53).

(** [random.uniform(a, b)]. *)
Definition random_uniform (a b : Q) : M Q :=
  u <- random_random ;;
  ret (a + (b - a) * u).

(** [random.choice(xs)]. *)
Definition random_choice {A} (xs : list A) : M A :=
  match xs with
  | [] => raise IndexError
  | _ :: _ =>
      k <- next_draw ;;
      match nth_error xs (N.to_nat (k mod N.of_nat (length xs))) with
      | Some x => ret x
      | None => raise IndexError
      end
  end.

(** Whether a path names something. *)
Definition present (f : option file) : bool :=
  match f with
  | None | Some Unreachable => false
  | Some Directory | Some (Regular _) | Some (ReadOnly _) | Some (WriteOnly _) =>
      true
  end.

(** [os.path.exists(path)]. *)
Definition path_exists (path : string) : M bool :=
  w <- get_env ;;
  ret (present (Dict.lookup path (files w))).

Definition set_file (path : string) (f : file) : M unit :=
  modify_env (fun w =>
    mk_world (Dict.set path f (files w)) (journal w) (entropy w) (cursor w) (clock w)).

(** The text [open(path, 'r')] gives access to; [None] where it raises. *)
Definition readable (f : option file) : option text :=
  match f with
  | Some (Regular t) | Some (ReadOnly t) => Some t
  | Some Directory | Some (WriteOnly _) | Some Unreachable | None => None
  end.

(** What a path names once it was opened with [open(path, 'w')] and the
    text [t] was written: an absent file is created, a file open to
    writing has its text replaced; [None] where [open] raises. *)
Definition written (f : option file) (t : text) : option file :=
  match f with
  | None | Some (Regular _) => Some (Regular t)
  | Some (WriteOnly _) => Some (WriteOnly t)
  | Some Directory | Some (ReadOnly _) | Some Unreachable => None
  end.

(** [open(path, 'r')] followed by reading the text. *)
Definition open_read (path : string) : M text :=
  w <- get_env ;;
  match readable (Dict.lookup path (files w)) with
  | Some t => ret t
  | None => raise OSError
  end.

(** Storing the text [t] at [path] through [open(path, 'w')].  The empty
    path names no file and none can be created under it. *)
Definition store (path : string) (t : text) : M unit :=
  w <- get_env ;;
  if String.eqb path "" then raise OSError
  else
    match written (Dict.lookup path (files w)) t with
    | Some f => set_file path f
    | None => raise OSError
    end.

(** [open(path, 'w')]: creates or truncates the file. *)
Definition open_write (path : string) : M unit :=
  store path Malformed.

(** A value produced by [json.load]. *)
Inductive json : Type :=
| JOther
| JObject (c : config).

Definition json_load (t : text) : M json :=
  match t with
  | Malformed => raise JSONDecodeError
  | NonObject => ret JOther
  | Object c => ret (JObject c)
  end.

(** [json.dump(config, f, indent=2)] into the file opened at [path]. *)
Definition json_dump (c : config) (path : string) : M unit :=
  store path (Object c).

(** [config.get(key)] needs [config] to be a JSON object. *)
Definition as_object (j : json) : M config :=
  match j with
  | JOther => raise AttributeError
  | JObject c => ret c
  end.

(* ------------------------------------------------------------------ *)
(** ** Attribute assignment *)

Definition with_behaviors (b : Dict.t Q) (a : CustomAgent) : CustomAgent :=
  mk_agent (agent_id a) b (learning_rate a) (exploration_rate a)
           (config_path a) (experience a) (current_state a) (total_rewards a).

Definition with_experience (e : Dict.t (Dict.t Q)) (a : CustomAgent) : CustomAgent :=
  mk_agent (agent_id a) (behaviors a) (learning_rate a) (exploration_rate a)
           (config_path a) e (current_state a) (total_rewards a).

Definition with_current_state (s : option string) (a : CustomAgent) : CustomAgent :=
  mk_agent (agent_id a) (behaviors a) (learning_rate a) (exploration_rate a)
           (config_path a) (experience a) s (total_rewards a).

Definition with_total_rewards (t : Q) (a : CustomAgent) : CustomAgent :=
  mk_agent (agent_id a) (behaviors a) (learning_rate a) (exploration_rate a)
           (config_path a) (experience a) (current_state a) t.

(** [a < b] on floats that are numbers (the comparison of binary64 is
    exact; with a NaN on either side it is false). *)
Definition Qltb (a b : Q) : bool := negb (Qle_bool b a).

(** [x == s] for [x] a JSON string or [None]. *)
Definition is_string (x : option string) (s : string) : bool :=
  match x with
  | Some s' => String.eqb s' s
  | None => false
  end.

Definition or_default {A} (x : option A) (dflt : A) : A :=
  match x with
  | Some v => v
  | None => dflt
  end.

(** [{b: 0.0 for b in self.behaviors.keys()}]. *)
Definition zero_row (a : CustomAgent) : Dict.t Q :=
  Dict.comprehension (Dict.keys (behaviors a)) 0.

(** [d[k]]. *)
Definition subscript {V} (k : string) (d : Dict.t V) : M V :=
  match Dict.lookup k d with
  | Some v => ret v
  | None => raise (KeyError k)
  end.

(** One step of [max(d, key=d.get)]: the running maximum [best] gives way
    to the next key [k'] only when [d.get(k') > d.get(best)].  The values
    of [d] are numbers; see [better_binary64] for rows that hold a NaN. *)
Definition better (d : Dict.t Q) (best k' : string) : string :=
  if Qltb (Dict.get best d 0) (Dict.get k' d 0) then k' else best.

(** [max(d, key=d.get)]: the first key whose value no later key's value
    exceeds. *)
Definition max_key (d : Dict.t Q) : M string :=
  match Dict.keys d with
  | [] => raise ValueError
  | k :: ks => ret (fold_left (better d) ks k)
  end.

(* ------------------------------------------------------------------ *)
(** ** The methods of [CustomAgent] *)

Definition load_config : M unit :=
  try_except
    (a <- get_self ;;
     found <- path_exists (config_path a) ;;
     if found : bool then
       t <- open_read (config_path a) ;;
       j <- json_load t ;;
       c <- as_object j ;;
       if is_string (cfg_agent_id c) (agent_id a) then
         modify_self (with_behaviors (or_default (cfg_behaviors c) (behaviors a))) ;;
         modify_self (with_experience (or_default (cfg_experience c) [])) ;;
         modify_self (with_total_rewards (or_default (cfg_total_rewards c) 0)) ;;
         logger INFO (msg_loaded (agent_id a) (config_path a))
       else
         logger WARNING msg_id_mismatch
     else
       logger INFO (msg_no_config (config_path a)))
    (fun e =>
       a <- get_self ;;
       logger ERROR (msg_load_error (agent_id a) e) ;;
       logger INFO msg_proceed_default).

Definition save_config : M unit :=
  try_except
    (a <- get_self ;;
     now <- datetime_now ;;
     let c := mk_config (Some (agent_id a)) (Some (behaviors a))
                        (Some (experience a)) (Some (total_rewards a))
                        (Some now) in
     open_write (config_path a) ;;
     json_dump c (config_path a) ;;
     logger INFO (msg_saved (agent_id a) (config_path a)))
    (fun e =>
       a <- get_self ;;
       logger ERROR (msg_save_error (agent_id a) e)).

(** The object [__init__] builds before it calls [load_config]. *)
Definition new_agent (id : string) (b : Dict.t Q) (lr er : Q) (path : string)
    : CustomAgent :=
  mk_agent id b lr er path [] None 0.

(** [__init__]: the object is built in world [w], then [load_config]
    runs on it. *)
Definition __init__ (id : string) (b : Dict.t Q) (lr er : Q) (path : string)
    (w : world) : outcome unit * machine :=
  (logger INFO (msg_initialized id b) ;;
   load_config)
    (mk_machine (new_agent id b lr er path) w).

Definition default_learning_rate : Q := 1 # 10.
Definition default_exploration_rate : Q := 2 # 10.
Definition default_config_path : string := "agent_config.json".

Definition set_state (state : string) : M unit :=
  modify_self (with_current_state (Some state)) ;;
  a <- get_self ;;
  (if negb (Dict.contains state (experience a)) then
     modify_self (with_experience (Dict.set state (zero_row a) (experience a)))
   else ret tt) ;;
  logger DEBUG (msg_state_updated (agent_id a) state).

Definition choose_action : M string :=
  a <- get_self ;;
  match current_state a with
  | None =>
      logger WARNING (msg_no_state_random (agent_id a)) ;;
      random_choice (Dict.keys (behaviors a))
  | Some s =>
      u <- random_random ;;
      if Qltb u (exploration_rate a) then
        action <- random_choice (Dict.keys (behaviors a)) ;;
        logger DEBUG (msg_exploring (agent_id a) action) ;;
        ret action
      else
        let state_experience := Dict.get s (experience a) (zero_row a) in
        action <- max_key state_experience ;;
        logger DEBUG (msg_exploiting (agent_id a) action) ;;
        ret action
  end.

Definition perform_action (action : string) : M Q :=
  try_except
    (a <- get_self ;;
     let base_reward := Dict.get action (behaviors a) 0 in
     noise <- random_uniform (- (1 # 10)) (1 # 10) ;;
     let reward := base_reward + noise in
     logger INFO (msg_performed (agent_id a) action reward) ;;
     ret reward)
    (fun e =>
       a <- get_self ;;
       logger ERROR (msg_perform_error action (agent_id a) e) ;;
       ret 0).

Definition update_learning (action : string) (reward : Q) : M unit :=
  try_except
    (a <- get_self ;;
     match current_state a with
     | None => logger WARNING (msg_no_state_update (agent_id a))
     | Some s =>
         row <- subscript s (experience a) ;;
         let current_value := Dict.get action row 0 in
         let new_value :=
           current_value + learning_rate a * (reward - current_value) in
         modify_self
           (with_experience
              (Dict.set s (Dict.set action new_value row) (experience a))) ;;
         a' <- get_self ;;
         modify_self
           (with_behaviors
              (Dict.set action
                 (Dict.get action (behaviors a') 0 + learning_rate a' * reward)
                 (behaviors a'))) ;;
         modify_self (fun x => with_total_rewards (total_rewards x + reward) x) ;;
         logger DEBUG (msg_updated (agent_id a) action new_value)
     end)
    (fun e =>
       a <- get_self ;;
       logger ERROR (msg_update_error (agent_id a) e)).

(** One entry of the history [evolve] returns. *)
Record history_entry : Type := mk_entry {
  h_state : string;
  h_action : string;
  h_reward : Q;
  h_total_rewards : Q;
  h_timestamp : nat
}.

(** The body of the [for] loop of [evolve]. *)
Definition evolve_iteration (state : string) : M history_entry :=
  set_state state ;;
  action <- choose_action ;;
  reward <- perform_action action ;;
  update_learning action reward ;;
  a <- get_self ;;
  now <- datetime_now ;;
  logger INFO (msg_iteration (agent_id a) state action reward) ;;
  ret (mk_entry state action reward (total_rewards a) now).

(** The [for] loop: [history] is a local list, still there when an
    iteration raises. *)
Fixpoint evolve_loop (iterations : list string) (history : list history_entry)
    (m : machine) : list history_entry * (outcome unit * machine) :=
  match iterations with
  | [] => (history, (Return tt, m))
  | state :: rest =>
      match evolve_iteration state m with
      | (Return entry, m') => evolve_loop rest (history ++ [entry]) m'
      | (Raise e, m') => (history, (Raise e, m'))
      end
  end.

(** [f"state_{i}" for i in range(num_iterations)]. *)
Definition placeholder_states (num_iterations : Z) : list string :=
  map (fun i => String.append "state_" (NilEmpty.string_of_uint (Nat.to_uint i)))
      (seq 0 (Z.to_nat num_iterations)).

Definition evolve (num_iterations : Z) (state_sequence : option (list string))
    : M (list history_entry) :=
  fun m =>
    let iterations :=
      match state_sequence with
      | Some (s :: ss) => s :: ss
      | _ => placeholder_states num_iterations
      end in
    let handler := fun e =>
      a <- get_self ;;
      logger ERROR (msg_evolve_error (agent_id a) e) in
    (* try: the loop, then save_config / except Exception: handler *)
    let '(history, (looped, m1)) := evolve_loop iterations [] m in
    (match looped with
     | Return _ => try_except save_config handler
     | Raise e => handler e
     end ;;
     ret history) m1.

Record summary : Type := mk_summary {
  sum_agent_id : string;
  sum_behaviors : Dict.t Q;
  sum_total_rewards : Q;
  sum_exploration_rate : Q;
  sum_learning_rate : Q;
  sum_experience_states : nat
}.

Definition get_summary : M summary :=
  a <- get_self ;;
  ret (mk_summary (agent_id a) (behaviors a) (total_rewards a)
                  (exploration_rate a) (learning_rate a)
                  (length (experience a))).

(* ------------------------------------------------------------------ *)
(** ** Callers: sequences of public operations *)

Inductive call : Type :=
| call_load_config
| call_save_config
| call_set_state (state : string)
| call_choose_action
| call_perform_action (action : string)
| call_update_learning (action : string) (reward : Q)
| call_evolve (num_iterations : Z) (state_sequence : option (list string))
| call_get_summary.

(** The call, its result dropped. *)
Definition perform (c : call) : M unit :=
  match c with
  | call_load_config => load_config
  | call_save_config => save_config
  | call_set_state s => set_state s
  | call_choose_action => _ <- choose_action ;; ret tt
  | call_perform_action a => _ <- perform_action a ;; ret tt
  | call_update_learning a r => update_learning a r
  | call_evolve n ss => _ <- evolve n ss ;; ret tt
  | call_get_summary => _ <- get_summary ;; ret tt
  end.

(** The machine after a caller made the calls [cs] in order, going on
    after a call that raised. *)
Definition run (cs : list call) (m : machine) : machine :=
  fold_left (fun m c => snd (perform c m)) cs m.

(** A world with no file, an empty journal and the generator [g]. *)
Definition blank_world (g : nat -> N) : world := mk_world [] [] g 0 0.

(* ------------------------------------------------------------------ *)
(** ** What each method does to the object

    The methods above are characterised below by pure functions on
    [CustomAgent]; they are used to carry invariants along calls. *)

(** The effect of [set_state]. *)
Definition set_state_agent (state : string) (a : CustomAgent) : CustomAgent :=
  let a1 := with_current_state (Some state) a in
  if Dict.contains state (experience a1)
  then a1
  else with_experience (Dict.set state (zero_row a1) (experience a1)) a1.

(** The three assignments of [update_learning] on the row [row] of the
    current state [s]. *)
Definition learn (s action : string) (reward : Q) (row : Dict.t Q)
    (a : CustomAgent) : CustomAgent :=
  let current_value := Dict.get action row 0 in
  let new_value := current_value + learning_rate a * (reward - current_value) in
  let a1 :=
    with_experience (Dict.set s (Dict.set action new_value row) (experience a))
                    a in
  let a2 := with_behaviors
              (Dict.set action
                 (Dict.get action (behaviors a1) 0 + learning_rate a1 * reward)
                 (behaviors a1)) a1 in
  with_total_rewards (total_rewards a2 + reward) a2.

(** The effect of [update_learning]. *)
Definition update_learning_agent (action : string) (reward : Q)
    (a : CustomAgent) : CustomAgent :=
  match current_state a with
  | None => a
  | Some s =>
      match Dict.lookup s (experience a) with
      | None => a
      | Some row => learn s action reward row a
      end
  end.

(** The row [choose_action] maximises over: line 129 of the source. *)
Definition state_row (a : CustomAgent) (s : string) : Dict.t Q :=
  Dict.get s (experience a) (zero_row a).

(** The stored value of [action] in state [s], read as [update_learning]
    reads it. *)
Definition stored_value (a : CustomAgent) (s action : string) : Q :=
  Dict.get action (Dict.get s (experience a) []) 0.

(** Every key of a row is a key of [behaviors]. *)
Definition rows_within (a : CustomAgent) : Prop :=
  forall s row, Dict.lookup s (experience a) = Some row ->
    forall k, In k (Dict.keys row) -> In k (Dict.keys (behaviors a)).

(** The invariant of the spec's value table: every row has an entry for
    every key of [behaviors]. *)
Definition rows_complete (a : CustomAgent) : Prop :=
  forall s row, Dict.lookup s (experience a) = Some row ->
    forall k, In k (Dict.keys (behaviors a)) -> Dict.contains k row = true.

(** The current state, when set, has its row. *)
Definition has_current_row (a : CustomAgent) : Prop :=
  forall s, current_state a = Some s ->
    exists row, Dict.lookup s (experience a) = Some row.

(** Calls that do not reload the record and whose [update_learning] names
    an action satisfying [ok]. *)
Definition permitted (ok : string -> Prop) (c : call) : Prop :=
  match c with
  | call_load_config => False
  | call_update_learning action _ => ok action
  | _ => True
  end.

(** Calls that name only known actions and do not reload the record. *)
Definition admissible (known : list string) (c : call) : Prop :=
  permitted (fun action => In action known) c.

Definition is_reload (c : call) : bool :=
  match c with
  | call_load_config => true
  | _ => false
  end.

(** The value of [action] in the row of [s] after [n] calls
    [update_learning(action, reward)]. *)
Definition value_after (n : nat) (action : string) (reward : Q) (s : string)
    (m : machine) : Q :=
  stored_value (self (run (repeat (call_update_learning action reward) n) m))
               s action.

(** Line 171 of the source, [current_value + self.learning_rate *
    (reward - current_value)], over binary64 floats. *)
Definition new_value_binary64 (current_value learning_rate reward : PrimFloat.float)
    : PrimFloat.float :=
  PrimFloat.add current_value
    (PrimFloat.mul learning_rate (PrimFloat.sub reward current_value)).

(** One step of line 130, [max(state_experience, key=state_experience.get)],
    over a row of binary64 floats: the running maximum gives way only to
    a key whose value compares greater. *)
Definition better_binary64 (d : Dict.t PrimFloat.float) (best k' : string)
    : string :=
  if PrimFloat.ltb (Dict.get best d PrimFloat.zero) (Dict.get k' d PrimFloat.zero)
  then k' else best.

(** Line 130 over a row of binary64 floats; [None] where [max] raises. *)
Definition max_key_binary64 (d : Dict.t PrimFloat.float) : option string :=
  match Dict.keys d with
  | [] => None
  | k :: ks => Some (fold_left (better_binary64 d) ks k)
  end.

(** A rank that orders the binary64 floats other than NaN as their
    comparison does: sign, then exponent, then mantissa. *)
Definition SFrank (f : SpecFloat.spec_float) : Z * Z * Z :=
  match f with
  | SpecFloat.S754_nan => (0, 0, 0)%Z
  | SpecFloat.S754_infinity true => (-2, 0, 0)%Z
  | SpecFloat.S754_infinity false => (2, 0, 0)%Z
  | SpecFloat.S754_zero _ => (0, 0, 0)%Z
  | SpecFloat.S754_finite true m e => (-1, - e, - Z.pos m)%Z
  | SpecFloat.S754_finite false m e => (1, e, Z.pos m)%Z
  end.

Definition rank_le (a b : Z * Z * Z) : Prop :=
  let '(a1, a2, a3) := a in
  let '(b1, b2, b3) := b in
  (a1 < b1 \/ (a1 = b1 /\ (a2 < b2 \/ (a2 = b2 /\ a3 <= b3))))%Z.

(** The rank of the value of [k] in the row [d]. *)
Definition rank_of (d : Dict.t PrimFloat.float) (k : string) : Z * Z * Z :=
  SFrank (FloatOps.Prim2SF (Dict.get k d PrimFloat.zero)).

(** The effect of [load_config] in world [w]. *)
Definition load_config_agent (w : world) (a : CustomAgent) : CustomAgent :=
  match readable (Dict.lookup (config_path a) (files w)) with
  | Some (Object c) =>
      if is_string (cfg_agent_id c) (agent_id a) then
        with_total_rewards (or_default (cfg_total_rewards c) 0)
          (with_experience (or_default (cfg_experience c) [])
             (with_behaviors (or_default (cfg_behaviors c) (behaviors a)) a))
      else a
  | _ => a
  end.

(** The document [save_config] writes for [a] at time [now]. *)
Definition document_of (a : CustomAgent) (now : nat) : config :=
  mk_config (Some (agent_id a)) (Some (behaviors a)) (Some (experience a))
            (Some (total_rewards a)) (Some now).

(** [open(path, 'w')] succeeds: the path is not the empty one, and it
    names nothing where a file can be created, or a file open to
    writing. *)
Definition writable (path : string) (w : world) : Prop :=
  path <> "" /\
  (Dict.lookup path (files w) = None \/
   (exists t, Dict.lookup path (files w) = Some (Regular t)) \/
   (exists t, Dict.lookup path (files w) = Some (WriteOnly t))).

(** A location where a record can be stored and read back: a path that
    can be opened for writing, is open to reading afterwards, and is not
    the file the log records go to. *)
Definition storable (path : string) (w : world) : Prop :=
  path <> "" /\ path <> log_file /\
  (Dict.lookup path (files w) = None \/
   exists t, Dict.lookup path (files w) = Some (Regular t)).

(** The files of [w'] away from the log file are those of [w]. *)
Definition off_log (w w' : world) : Prop :=
  forall p, p <> log_file ->
    Dict.lookup p (files w') = Dict.lookup p (files w).

(** The world [w] once a record of the log reached the handlers. *)
Definition after_record (w : world) : world :=
  mk_world (log_line (files w)) (journal w) (entropy w) (cursor w) (clock w).

(** An action [choose_action] can return in the state of [a]. *)
Definition choosable (a : CustomAgent) (action : string) : Prop :=
  In action (Dict.keys (behaviors a)) \/
  exists s, current_state a = Some s /\ In action (Dict.keys (state_row a s)).

(** Rows keyed within the actions of [behaviors], whose key list is
    [ks]. *)
Definition keys_settled (ks : list string) (a : CustomAgent) : Prop :=
  rows_within a /\ Dict.keys (behaviors a) = ks.

(* ------------------------------------------------------------------ *)
(** ** Sample data *)

(** The behaviors of the demonstration in [main]. *)
Definition initial_behaviors : Dict.t Q :=
  [("stake_tokens", 5 # 10); ("claim_rewards", 3 # 10);
   ("analyze_data", 2 # 10); ("idle", 1 # 10)].

(** A generator whose every raw draw is [0]. *)
Definition zero_draws : nat -> N := fun _ => 0%N.

(** The agent of [main], constructed where no file exists. *)
Definition demo : machine :=
  snd (__init__ "ontora_agent_001" initial_behaviors (1 # 10) (2 # 10)
            "agent_001_config.json" (blank_world zero_draws)).

(** The same agent with [exploration_rate = 0]. *)
Definition greedy_demo : machine :=
  snd (__init__ "ontora_agent_001" initial_behaviors (1 # 10) 0
            "agent_001_config.json" (blank_world zero_draws)).

(** An agent constructed with no behaviors. *)
Definition bare : machine :=
  snd (__init__ "ontora_agent_001" [] (1 # 10) 0 "agent_001_config.json"
            (blank_world zero_draws)).



(** A world where the storage location is a directory. *)
Definition blocked_world : world :=
  mk_world [("agent_001_config.json", Directory)] [] zero_draws 0 0.

(** The agent of [main] constructed in [blocked_world], after one step of
    learning. *)
Definition blocked_learner : machine :=
  run [call_set_state "user_login"; call_update_learning "idle" 1]
      (snd (__init__ "ontora_agent_001" initial_behaviors (1 # 10) (2 # 10)
                 "agent_001_config.json" blocked_world)).

(** The agent of [main] after it saved, observed a state and reloaded:
    the state is set, the table is the saved, empty one. *)
Definition reloaded : machine :=
  run [call_save_config; call_set_state "user_login"; call_load_config] demo.

(** [bare] after it observed a state. *)
Definition bare_observing : machine :=
  run [call_set_state "user_login"] bare.

(** [greedy_demo] after it observed a state and was rewarded once for
    ["idle"]. *)
Definition rewarded_idle : machine :=
  run [call_set_state "user_login"; call_update_learning "idle" 1] greedy_demo.

(** [demo] after it observed a state. *)
Definition observing : machine :=
  run [call_set_state "user_login"] demo.

(** [demo] after it observed a state and was rewarded once for ["idle"]. *)
Definition learner : machine :=
  run [call_set_state "user_login"; call_update_learning "idle" 1] demo.

(** A record persisted for the agent of [main] with one behavior only and
    a row that names an action the behaviors do not have. *)
Definition own_record : config :=
  mk_config (Some "ontora_agent_001") (Some [("idle", 1)])
            (Some [("user_login", [("idle", 0); ("mint_tokens", 1)])])
            (Some 5) (Some 0%nat).

(** A world whose only file holds [own_record]. *)
Definition own_world : world :=
  mk_world [("agent_001_config.json", Regular (Object own_record))]
           [] zero_draws 0 0.

(* ------------------------------------------------------------------ *)
(** ** Further notions: the loop of [evolve] *)

(** The states [evolve] iterates over (line 194 of the source): the
    sequence given when it is neither [None] nor empty, the placeholder
    states otherwise. *)
Definition iterations_of (num_iterations : Z)
    (state_sequence : option (list string)) : list string :=
  match state_sequence with
  | Some (s :: ss) => s :: ss
  | _ => placeholder_states num_iterations
  end.

(** Calls that can set [current_state]. *)
Definition sets_state (c : call) : bool :=
  match c with
  | call_set_state _ | call_evolve _ _ => true
  | _ => false
  end.

(** Calls that make a state current and give it its row, whatever the
    object was before: [set_state], and [evolve] when it has a state to
    iterate over (its loop starts with [set_state]). *)
Definition establishes (c : call) : bool :=
  match c with
  | call_set_state _ => true
  | call_evolve num_iterations state_sequence =>
      match iterations_of num_iterations state_sequence with
      | [] => false
      | _ :: _ => true
      end
  | _ => false
  end.

(** An object [evolve] runs on without a raise: there is an action to
    choose, every row has all the actions of [behaviors] and no other. *)
Definition healthy (a : CustomAgent) : Prop :=
  behaviors a <> [] /\ rows_within a /\ rows_complete a.

(** The totals after each of the rewards [rs], starting from [t]. *)
Fixpoint running_totals (t : Q) (rs : list Q) : list Q :=
  match rs with
  | [] => []
  | r :: rs' => (t + r) :: running_totals (t + r) rs'
  end.

(** The keys of the table once the state [s] has been observed: [s] is
    appended unless it is there. *)
Definition note_state (ks : list string) (s : string) : list string :=
  if existsb (String.eqb s) ks then ks else ks ++ [s].

(** The value of [get_summary()['experience_states']]. *)
Definition experience_states (m : machine) : nat :=
  match fst (get_summary m) with
  | Return r => sum_experience_states r
  | Raise _ => 0
  end.


(* ================================================================== *)
(** * Properties *)

(** ** Dictionaries *)

Module DictFacts.
Import Dict.

Section Facts.
Context {V : Type}.
Implicit Types (d : Dict.t V) (k : string) (v : V).

Lemma lookup_set_same k v d : lookup k (set k v d) = Some v.
Proof.
  induction d as [|[k' v'] d IH]; simpl.
  - now rewrite String.eqb_refl.
  - destruct (String.eqb k k') eqn:E; simpl.
    + now rewrite String.eqb_refl.
    + now rewrite E.
Qed.

Lemma lookup_set_other k k' v d :
  k' <> k -> lookup k' (set k v d) = lookup k' d.
Proof.
  intros Hne. induction d as [|[k0 v0] d IH]; simpl.
  - destruct (String.eqb_spec k' k); [contradiction | reflexivity].
  - destruct (String.eqb_spec k k0) as [->|Hk]; simpl.
    + destruct (String.eqb_spec k' k0); [contradiction | reflexivity].
    + destruct (String.eqb_spec k' k0); [reflexivity | exact IH].
Qed.

Lemma lookup_set k k' v d :
  lookup k' (set k v d) = if String.eqb k' k then Some v else lookup k' d.
Proof.
  destruct (String.eqb_spec k' k) as [->|Hne].
  - apply lookup_set_same.
  - now apply lookup_set_other.
Qed.

Lemma in_keys_lookup k d : In k (keys d) <-> lookup k d <> None.
Proof.
  induction d as [|[k' v'] d IH]; simpl.
  - split; [tauto | congruence].
  - destruct (String.eqb_spec k k') as [->|Hne].
    + split; [discriminate | auto].
    + rewrite <- IH. split; [intros [H|H]; [congruence | exact H] | auto].
Qed.

Lemma contains_in_keys k d : contains k d = true <-> In k (keys d).
Proof.
  rewrite in_keys_lookup. unfold contains.
  destruct (lookup k d); split; congruence.
Qed.

Lemma contains_false_lookup k d : contains k d = false <-> lookup k d = None.
Proof.
  unfold contains. destruct (lookup k d); split; congruence.
Qed.

(** Assigning to a bound key keeps the key list. *)
Lemma keys_set_bound k v d : In k (keys d) -> keys (set k v d) = keys d.
Proof.
  induction d as [|[k' v'] d IH]; simpl; [tauto|].
  intros H. destruct (String.eqb_spec k k') as [->|Hne]; simpl.
  - reflexivity.
  - f_equal. apply IH. destruct H; [congruence | assumption].
Qed.

(** Assigning to an unbound key appends it. *)
Lemma keys_set_unbound k v d : ~ In k (keys d) -> keys (set k v d) = keys d ++ [k].
Proof.
  induction d as [|[k' v'] d IH]; simpl; [reflexivity|].
  intros H. destruct (String.eqb_spec k k') as [->|Hne]; simpl.
  - exfalso. apply H. now left.
  - f_equal. apply IH. tauto.
Qed.

Lemma in_keys_set k k' v d : In k' (keys (set k v d)) <-> k' = k \/ In k' (keys d).
Proof.
  rewrite !in_keys_lookup, lookup_set.
  destruct (String.eqb_spec k' k) as [->|Hne].
  - split; [auto | discriminate].
  - split; [auto | intros [H|H]; [contradiction | exact H]].
Qed.

Lemma get_set_same k v d dflt : get k (set k v d) dflt = v.
Proof. unfold get. now rewrite lookup_set_same. Qed.

Lemma get_set_other k k' v d dflt :
  k' <> k -> get k' (set k v d) dflt = get k' d dflt.
Proof. intros H. unfold get. now rewrite lookup_set_other. Qed.

Lemma in_keys_fold_set (ks : list string) v d k :
  In k (keys (fold_left (fun d k => set k v d) ks d)) <-> In k ks \/ In k (keys d).
Proof.
  revert d. induction ks as [|k0 ks IH]; intros d; simpl.
  - tauto.
  - rewrite IH, in_keys_set. intuition congruence.
Qed.

Lemma in_keys_comprehension (ks : list string) v k :
  In k (keys (comprehension ks v)) <-> In k ks.
Proof.
  unfold comprehension. rewrite in_keys_fold_set. simpl. tauto.
Qed.

Lemma lookup_fold_set (ks : list string) v d k :
  (forall x, lookup k d = Some x -> x = v) ->
  forall x, lookup k (fold_left (fun d k => set k v d) ks d) = Some x -> x = v.
Proof.
  revert d. induction ks as [|k0 ks IH]; intros d Hd x; simpl.
  - apply Hd.
  - apply IH. intros y. rewrite lookup_set.
    destruct (String.eqb k k0); [congruence | apply Hd].
Qed.

(** Every value of a comprehension is the comprehension's value. *)
Lemma lookup_comprehension (ks : list string) v k x :
  lookup k (comprehension ks v) = Some x -> x = v.
Proof.
  apply lookup_fold_set. simpl. discriminate.
Qed.

Lemma keys_nil_iff d : keys d = [] <-> d = [].
Proof. destruct d; simpl; split; congruence. Qed.

End Facts.

End DictFacts.

(* ------------------------------------------------------------------ *)
(** ** The methods, one by one *)

Ltac step_m :=
  unfold try_except, bind, ret, raise, logger, datetime_now, next_draw,
    random_uniform, random_random, path_exists, open_read,
    open_write, json_load, json_dump, store, set_file, as_object, subscript,
    get_self, get_env, modify_self, modify_env; cbn.

(** *** The log file *)

Lemma lookup_log_line p fs :
  p <> log_file -> Dict.lookup p (log_line fs) = Dict.lookup p fs.
Proof.
  intros Hp. unfold log_line.
  destruct (Dict.lookup log_file fs) as [f|]; [|reflexivity].
  now apply DictFacts.lookup_set_other.
Qed.

Lemma lookup_log_line_same fs :
  Dict.lookup log_file (log_line fs) =
    match Dict.lookup log_file fs with
    | Some f => Some (appended f)
    | None => None
    end.
Proof.
  unfold log_line. destruct (Dict.lookup log_file fs) as [f|] eqn:E.
  - apply DictFacts.lookup_set_same.
  - exact E.
Qed.

(** A record of the log leaves no JSON to read in the log file. *)
Lemma readable_log_line fs :
  readable (Dict.lookup log_file (log_line fs)) = None \/
  readable (Dict.lookup log_file (log_line fs)) = Some Malformed.
Proof.
  rewrite lookup_log_line_same.
  destruct (Dict.lookup log_file fs) as [[|t|t|t|]|]; cbn; auto.
Qed.

Lemma off_log_refl w : off_log w w.
Proof. intros p _. reflexivity. Qed.

Lemma off_log_trans w1 w2 w3 : off_log w1 w2 -> off_log w2 w3 -> off_log w1 w3.
Proof. intros H12 H23 p Hp. now rewrite H23, H12. Qed.

Lemma off_log_files w w' : files w' = files w -> off_log w w'.
Proof. intros E p _. now rewrite E. Qed.

Lemma logger_off_log l msg m : off_log (env m) (env (snd (logger l msg m))).
Proof.
  destruct m as [a w]. intros p Hp. unfold logger. cbn.
  destruct (reaches_handlers l); [now apply lookup_log_line | reflexivity].
Qed.

(** *** [load_config] and [save_config] *)

Lemma load_config_spec m :
  fst (load_config m) = Return tt /\
  self (snd (load_config m)) = load_config_agent (env m) (self m).
Proof.
  destruct m as [a w]. unfold load_config, load_config_agent. step_m.
  destruct (Dict.lookup (config_path a) (files w))
    as [[|[| |c]|[| |c]|t|]|] eqn:E;
    step_m; rewrite ?E; step_m; auto;
    destruct (is_string (cfg_agent_id c) (agent_id a)); step_m; auto.
Qed.

(** [load_config] writes no file but the log. *)
Lemma load_config_files m : off_log (env m) (env (snd (load_config m))).
Proof.
  destruct m as [a w]. intros p Hp. unfold load_config. step_m.
  destruct (Dict.lookup (config_path a) (files w))
    as [[|[| |c]|[| |c]|t|]|] eqn:E;
    step_m; rewrite ?E; step_m; rewrite ?lookup_log_line by assumption; auto;
    destruct (is_string (cfg_agent_id c) (agent_id a)); step_m;
    now rewrite ?lookup_log_line by assumption.
Qed.

Lemma save_config_spec m :
  fst (save_config m) = Return tt /\ self (snd (save_config m)) = self m.
Proof.
  destruct m as [a w]. unfold save_config. step_m.
  destruct (String.eqb (config_path a) ""); step_m; auto.
  destruct (Dict.lookup (config_path a) (files w)) as [[|t|t|t|]|] eqn:E;
    step_m; auto;
    rewrite DictFacts.lookup_set_same; step_m; auto.
Qed.

(** A save that can open its file leaves the document of the object
    there, in the kind of file it found. *)
Lemma save_config_writes m :
  writable (config_path (self m)) (env m) ->
  config_path (self m) <> log_file ->
  Dict.lookup (config_path (self m)) (files (env (snd (save_config m)))) =
    written (Dict.lookup (config_path (self m)) (files (env m)))
            (Object (document_of (self m) (clock (env m)))) /\
  journal (env (snd (save_config m))) =
    journal (env m) ++
    [(INFO, msg_saved (agent_id (self m)) (config_path (self m)))].
Proof.
  destruct m as [a w]. unfold writable, save_config. step_m.
  intros [Hne Hw] Hlog.
  destruct (String.eqb_spec (config_path a) "") as [E0|_]; [contradiction|].
  destruct Hw as [Hw|[[t Hw]|[t Hw]]]; rewrite Hw; step_m;
    rewrite DictFacts.lookup_set_same; step_m;
    rewrite lookup_log_line by assumption;
    rewrite DictFacts.lookup_set_same; auto.
Qed.

(** At a location that can hold a record, a save leaves the document of
    the object in a file open to reading. *)
Lemma save_config_stores m :
  storable (config_path (self m)) (env m) ->
  Dict.lookup (config_path (self m)) (files (env (snd (save_config m)))) =
    Some (Regular (Object (document_of (self m) (clock (env m))))).
Proof.
  intros (Hne & Hlog & Hw).
  assert (W : writable (config_path (self m)) (env m)).
  { split; [exact Hne|]. destruct Hw as [Hw|Hw]; auto. }
  destruct (@save_config_writes m W Hlog) as [-> _].
  destruct Hw as [->|[t ->]]; reflexivity.
Qed.

(** A save that cannot open its file writes nothing but the record of its
    failure in the log. *)
Lemma save_config_blocked m :
  ~ writable (config_path (self m)) (env m) ->
  files (env (snd (save_config m))) = log_line (files (env m)) /\
  journal (env (snd (save_config m))) =
    journal (env m) ++ [(ERROR, msg_save_error (agent_id (self m)) OSError)].
Proof.
  destruct m as [a w]. unfold writable, save_config. step_m. intros Hw.
  destruct (String.eqb_spec (config_path a) "") as [E0|Hne]; step_m; auto.
  destruct (Dict.lookup (config_path a) (files w)) as [[|t|t|t|]|] eqn:E;
    step_m; auto; exfalso; apply Hw; split; eauto.
Qed.

(** [save_config] writes no file but its own and the log. *)
Lemma save_config_files m p :
  p <> config_path (self m) -> p <> log_file ->
  Dict.lookup p (files (env (snd (save_config m)))) =
    Dict.lookup p (files (env m)).
Proof.
  destruct m as [a w]. unfold save_config. step_m. intros Hp Hl.
  destruct (String.eqb (config_path a) ""); step_m;
    [now rewrite lookup_log_line|].
  destruct (Dict.lookup (config_path a) (files w)) as [[|t|t|t|]|] eqn:E;
    step_m; rewrite ?lookup_log_line by assumption; auto;
    rewrite DictFacts.lookup_set_same; step_m;
    rewrite ?lookup_log_line by assumption;
    now rewrite !DictFacts.lookup_set_other by assumption.
Qed.


Lemma set_state_spec s m :
  fst (set_state s m) = Return tt /\
  self (snd (set_state s m)) = set_state_agent s (self m).
Proof.
  destruct m as [a w]. unfold set_state, set_state_agent. step_m.
  destruct (Dict.contains s (experience a)); step_m; auto.
Qed.

Lemma get_summary_spec m :
  exists r, fst (get_summary m) = Return r /\ snd (get_summary m) = m.
Proof. destruct m as [a w]. eexists. split; reflexivity. Qed.

Lemma perform_action_spec action m :
  (exists r, fst (perform_action action m) = Return r) /\
  self (snd (perform_action action m)) = self m.
Proof.
  destruct m as [a w]. unfold perform_action. step_m. eauto.
Qed.

Lemma update_learning_spec action reward m :
  fst (update_learning action reward m) = Return tt /\
  self (snd (update_learning action reward m)) =
    update_learning_agent action reward (self m).
Proof.
  destruct m as [a w]. unfold update_learning, update_learning_agent. step_m.
  destruct (current_state a) as [s|]; step_m; auto.
  destruct (Dict.lookup s (experience a)) as [row|]; step_m; auto.
Qed.

(* ------------------------------------------------------------------ *)
(** ** Random draws and [max] *)

Lemma Qltb_true a b : Qltb a b = true <-> a < b.
Proof.
  unfold Qltb. rewrite negb_true_iff, <- not_true_iff_false, Qle_bool_iff.
  split; [apply Qnot_le_lt | apply Qlt_not_le].
Qed.

Lemma Qltb_false a b : Qltb a b = false <-> b <= a.
Proof.
  unfold Qltb. rewrite negb_false_iff. apply Qle_bool_iff.
Qed.

(** [random.random()] lies in [0, 1) and assigns no attribute. *)
Lemma random_random_spec m :
  exists u, fst (random_random m) = Return u /\ 0 <= u /\ u < 1 /\
            self (snd (random_random m)) = self m.
Proof.
  destruct m as [a w]. unfold random_random. step_m.
  eexists. split; [reflexivity|]. split; [|split; [|reflexivity]].
  - unfold Qle. cbn. rewrite Z.mul_1_r. apply N2Z.is_nonneg.
  - unfold Qlt. cbn. rewrite Z.mul_1_r.
    change (Z.pos two_53) with (Z.of_N (N.pos two_53)).
    apply N2Z.inj_lt, N.mod_upper_bound. discriminate.
Qed.

Lemma random_choice_self {A} (xs : list A) m :
  self (snd (random_choice xs m)) = self m.
Proof.
  destruct m as [a w]. unfold random_choice.
  destruct xs as [|x xs]; step_m; [reflexivity|].
  match goal with |- context [nth_error ?l ?i] => destruct (nth_error l i) end;
    reflexivity.
Qed.

Lemma random_choice_in {A} (xs : list A) m x :
  fst (random_choice xs m) = Return x -> In x xs.
Proof.
  destruct m as [a w]. unfold random_choice.
  destruct xs as [|x0 xs]; step_m; [discriminate|].
  match goal with
  | |- context [nth_error ?l ?i] => destruct (nth_error l i) eqn:E
  end; cbn; [|discriminate].
  intros [= <-]. exact (nth_error_In _ _ E).
Qed.

Lemma random_choice_returns {A} (xs : list A) m :
  xs <> [] -> exists x, fst (random_choice xs m) = Return x.
Proof.
  destruct m as [a w]. unfold random_choice.
  destruct xs as [|x0 xs]; [congruence|]. intros _. step_m.
  match goal with
  | |- context [nth_error ?l ?i] => destruct (nth_error l i) eqn:E
  end; cbn; [eauto|].
  apply nth_error_None in E. exfalso.
  change (N.pos (Pos.of_succ_nat (length xs)))
    with (N.of_nat (S (length xs))) in E.
  cbn [length] in E.
  assert (Hn : N.of_nat (S (length xs)) <> 0%N) by lia.
  pose proof (N.mod_upper_bound (entropy w (cursor w)) _ Hn) as Hlt.
  revert E Hlt.
  generalize (entropy w (cursor w) mod N.of_nat (S (length xs)))%N.
  intros r. lia.
Qed.

Lemma random_choice_raises {A} m :
  random_choice (@nil A) m = (Raise IndexError, m).
Proof. reflexivity. Qed.

Section Argmax.
Variable d : Dict.t Q.

Lemma fold_better (ks : list string) : forall best,
  let r := fold_left (better d) ks best in
  (r = best \/ In r ks) /\
  Dict.get best d 0 <= Dict.get r d 0 /\
  (forall k, In k ks -> Dict.get k d 0 <= Dict.get r d 0).
Proof.
  induction ks as [|k0 ks IH]; intros best; simpl.
  - split; [now left|]. split; [apply Qle_refl | tauto].
  - destruct (IH (better d best k0)) as (Hin & Hle & Hall).
    assert (Hb : Dict.get best d 0 <= Dict.get (better d best k0) d 0 /\
                 Dict.get k0 d 0 <= Dict.get (better d best k0) d 0 /\
                 (better d best k0 = best \/ better d best k0 = k0)).
    { unfold better.
      destruct (Qltb (Dict.get best d 0) (Dict.get k0 d 0)) eqn:E.
      - apply Qltb_true in E. repeat split; auto using Qle_refl, Qlt_le_weak.
      - apply Qltb_false in E. repeat split; auto using Qle_refl. }
    destruct Hb as (Hb1 & Hb2 & Hb3).
    split; [|split].
    + destruct Hin as [Hin|Hin]; [|auto].
      rewrite Hin. destruct Hb3 as [->| ->]; auto.
    + eapply Qle_trans; eassumption.
    + intros k [<-|Hk]; [eapply Qle_trans; eassumption | auto].
Qed.

(** [max(d, key=d.get)] on a non-empty dictionary returns a key of [d]
    whose value is the largest, and changes nothing. *)
Lemma max_key_spec m :
  d <> [] ->
  exists action,
    max_key d m = (Return action, m) /\
    In action (Dict.keys d) /\
    (forall k, In k (Dict.keys d) -> Dict.get k d 0 <= Dict.get action d 0).
Proof.
  intros Hd. unfold max_key.
  destruct (Dict.keys d) as [|k ks] eqn:E.
  - apply DictFacts.keys_nil_iff in E. contradiction.
  - eexists. split; [reflexivity|].
    destruct (fold_better ks k) as (Hin & Hle & Hall).
    split.
    + destruct Hin as [->|Hin]; [now left | now right].
    + intros k' [<-|Hk']; auto.
Qed.

Lemma max_key_empty m : d = [] -> max_key d m = (Raise ValueError, m).
Proof. intros ->. reflexivity. Qed.

End Argmax.

(* ------------------------------------------------------------------ *)
(** ** [choose_action] *)

Lemma max_key_cases (d : Dict.t Q) m :
  (d = [] /\ max_key d m = (Raise ValueError, m)) \/
  (exists action,
     max_key d m = (Return action, m) /\
     In action (Dict.keys d) /\
     (forall k, In k (Dict.keys d) -> Dict.get k d 0 <= Dict.get action d 0)).
Proof.
  destruct d as [|b d].
  - left. split; reflexivity.
  - right. apply max_key_spec. discriminate.
Qed.

Ltac case_choice :=
  match goal with
  | |- context [random_choice ?xs ?m] =>
      let o := fresh "o" in
      let m' := fresh "m'" in
      let E := fresh "E" in
      pose proof (random_choice_self xs m);
      pose proof (@random_choice_in _ xs m);
      destruct (random_choice xs m) as [o m'] eqn:E;
      cbn [fst snd] in *;
      destruct o; step_m
  end.

Ltac case_max :=
  match goal with
  | |- context [max_key ?d ?m] =>
      let Hd := fresh "Hd" in
      let Hin := fresh "Hin" in
      let Hmax := fresh "Hmax" in
      destruct (max_key_cases d m) as [[Hd ->] | (? & -> & Hin & Hmax)];
      step_m
  end.

(** [choose_action] assigns no attribute. *)
Lemma choose_action_self m : self (snd (choose_action m)) = self m.
Proof.
  destruct m as [a w]. unfold choose_action. step_m.
  destruct (current_state a) as [s|]; step_m.
  - destruct (Qltb _ (exploration_rate a)); step_m.
    + case_choice; assumption.
    + case_max; reflexivity.
  - case_choice; assumption.
Qed.

(** What [choose_action] returns is a key of [behaviors] or of the row of
    the current state. *)
Lemma choose_action_choosable m action :
  fst (choose_action m) = Return action -> choosable (self m) action.
Proof.
  destruct m as [a w]. unfold choose_action, choosable. step_m.
  destruct (current_state a) as [s|]; step_m.
  - destruct (Qltb _ (exploration_rate a)); step_m.
    + case_choice; intros [= <-]. left. auto.
    + case_max; intros [= <-]. right. exists s. split; [reflexivity | assumption].
  - case_choice; intros [= <-]. left. auto.
Qed.

(* ------------------------------------------------------------------ *)
(** ** Carrying an invariant of the object along calls *)

Section Invariant.

Variable P : CustomAgent -> Prop.
Variable ok : string -> Prop.

Hypothesis P_set_state : forall s a, P a -> P (set_state_agent s a).
Hypothesis P_choosable : forall a action, P a -> choosable a action -> ok action.
Hypothesis P_update :
  forall action reward a, P a -> ok action ->
    P (update_learning_agent action reward a).

Lemma evolve_iteration_keeps state m :
  P (self m) -> P (self (snd (evolve_iteration state m))).
Proof.
  intros HP. unfold evolve_iteration, bind.
  destruct (set_state_spec state m) as [E1 S1].
  destruct (set_state state m) as [o1 m1]. cbn [fst snd] in *. subst o1.
  assert (HP1 : P (self m1)) by (rewrite S1; auto).
  pose proof (choose_action_self m1) as S2.
  pose proof (choose_action_choosable m1) as C2.
  destruct (choose_action m1) as [[action|e] m2]; cbn [fst snd] in *;
    [|now rewrite S2].
  destruct (perform_action_spec action m2) as [[reward E3] S3].
  destruct (perform_action action m2) as [o3 m3]. cbn [fst snd] in *. subst o3.
  destruct (update_learning_spec action reward m3) as [E4 S4].
  destruct (update_learning action reward m3) as [o4 m4].
  cbn [fst snd] in *. subst o4.
  destruct m4 as [a4 w4]. step_m. cbn in S4. rewrite S4, S3, S2.
  apply P_update; [assumption|]. eapply P_choosable; eauto.
Qed.

Lemma evolve_loop_keeps iterations : forall history m,
  P (self m) -> P (self (snd (snd (evolve_loop iterations history m)))).
Proof.
  induction iterations as [|state rest IH]; intros history m HP; simpl.
  - exact HP.
  - pose proof (evolve_iteration_keeps state m HP) as H1.
    destruct (evolve_iteration state m) as [[entry|e] m1]; cbn [fst snd] in *.
    + now apply IH.
    + exact H1.
Qed.

Lemma evolve_self num_iterations state_sequence m :
  exists iterations history,
    self (snd (evolve num_iterations state_sequence m)) =
    self (snd (snd (evolve_loop iterations history m))).
Proof.
  unfold evolve.
  match goal with
  | |- context [evolve_loop ?its ?h m] => exists its, h;
      destruct (evolve_loop its h m) as [history [looped m1]]
  end.
  cbn [fst snd]. unfold bind.
  destruct looped as [[]|e].
  - destruct (save_config_spec m1) as [E S]. unfold try_except.
    destruct (save_config m1) as [o m2]. cbn [fst snd] in *. subst o.
    cbn. exact S.
  - destruct m1 as [a1 w1]. reflexivity.
Qed.

Lemma evolve_keeps num_iterations state_sequence m :
  P (self m) -> P (self (snd (evolve num_iterations state_sequence m))).
Proof.
  intros HP.
  destruct (evolve_self num_iterations state_sequence m) as (its & h & ->).
  now apply evolve_loop_keeps.
Qed.

Lemma perform_keeps c m :
  P (self m) -> permitted ok c -> P (self (snd (perform c m))).
Proof.
  intros HP Hc. destruct c; cbn [perform permitted] in *.
  - contradiction.
  - now rewrite (proj2 (save_config_spec m)).
  - rewrite (proj2 (set_state_spec state m)). auto.
  - unfold bind, ret. pose proof (choose_action_self m) as S.
    destruct (choose_action m) as [[x|e] m']; cbn [fst snd] in *; now rewrite S.
  - unfold bind, ret. pose proof (proj2 (perform_action_spec action m)) as S.
    destruct (perform_action action m) as [[x|e] m']; cbn [fst snd] in *;
      now rewrite S.
  - rewrite (proj2 (update_learning_spec action reward m)). auto.
  - unfold bind, ret.
    pose proof (evolve_keeps num_iterations state_sequence m HP) as S.
    destruct (evolve num_iterations state_sequence m) as [[x|e] m'];
      cbn [fst snd] in *; exact S.
  - exact HP.
Qed.

Lemma run_keeps cs : forall m,
  P (self m) -> Forall (permitted ok) cs -> P (self (run cs m)).
Proof.
  induction cs as [|c cs IH]; intros m HP Hcs; cbn [run fold_left].
  - exact HP.
  - inversion Hcs as [|? ? Hc Hrest]; subst.
    apply IH; [|exact Hrest]. now apply perform_keeps.
Qed.

End Invariant.

(* ------------------------------------------------------------------ *)
(** ** Construction and persistence *)

Lemma load_config_agent_rates w a :
  learning_rate (load_config_agent w a) = learning_rate a /\
  exploration_rate (load_config_agent w a) = exploration_rate a /\
  current_state (load_config_agent w a) = current_state a /\
  agent_id (load_config_agent w a) = agent_id a /\
  config_path (load_config_agent w a) = config_path a.
Proof.
  unfold load_config_agent.
  destruct (readable (Dict.lookup (config_path a) (files w))) as [[| |c]|]; auto.
  destruct (is_string (cfg_agent_id c) (agent_id a)); auto.
Qed.

(** Construction: the new object, then what [load_config] makes of it
    once the record of line 56 is in the log. *)
Lemma init_spec id b lr er path w :
  fst (__init__ id b lr er path w) = Return tt /\
  self (snd (__init__ id b lr er path w)) =
    load_config_agent (after_record w) (new_agent id b lr er path).
Proof.
  unfold __init__, bind, logger, modify_env. cbn [fst snd self env].
  match goal with |- context [load_config ?m] =>
    destruct (load_config_spec m) as [E S]; revert E S;
    destruct (load_config m) as [o m1]
  end.
  cbn [fst snd self env]. intros -> ->. split; reflexivity.
Qed.


(** Away from the log file, the record of line 56 changes nothing of what
    [load_config] finds. *)
Lemma load_config_agent_after_record w a :
  config_path a <> log_file ->
  load_config_agent (after_record w) a = load_config_agent w a.
Proof.
  intros E. unfold load_config_agent. cbn [files after_record].
  now rewrite lookup_log_line.
Qed.

Lemma is_string_true x s : is_string x s = true <-> x = Some s.
Proof.
  destruct x as [s'|]; simpl.
  - rewrite String.eqb_eq. split; congruence.
  - split; discriminate.
Qed.



(** C3 fails as stated: with a directory at the storage location
    [save_config] logs the error and writes nothing, so an agent
    constructed afterwards with the same identity and location starts from
    its constructor defaults, not from the saved table and reward. *)
Lemma save_config_blocked_loses_state :
  experience (self blocked_learner) = [("user_login",
     [("stake_tokens", 0); ("claim_rewards", 0); ("analyze_data", 0);
      ("idle", 0 + (1 # 10) * (1 - 0))])] /\
  total_rewards (self blocked_learner) = 0 + 1 /\
  fst (save_config blocked_learner) = Return tt /\
  experience (self (snd (__init__ "ontora_agent_001" initial_behaviors (1 # 10)
                              (2 # 10) "agent_001_config.json"
                              (env (snd (save_config blocked_learner))))))
    = [] /\
  total_rewards (self (snd (__init__ "ontora_agent_001" initial_behaviors (1 # 10)
                                 (2 # 10) "agent_001_config.json"
                                 (env (snd (save_config blocked_learner))))))
    = 0.
Proof. repeat split. Qed.

(** C3 (amended). Whenever the storage location can hold a record (the
    path is not empty, it names nothing where a file can be created or a
    file open to reading and writing, and it is not the file the log is
    written to), [save_config] followed by the construction of an agent
    with the same identity and the same location yields an agent whose
    behaviors, experience and total reward are those of the saved agent
    (numbers all of them: no NaN), and whose learning and exploration
    rates are the new constructor's arguments. *)
Theorem save_config_then_init_restores :
  forall m b' lr' er',
    storable (config_path (self m)) (env m) ->
    let saved := snd (save_config m) in
    let restored :=
      self (snd (__init__ (agent_id (self m)) b' lr' er' (config_path (self m))
                      (env saved))) in
    behaviors restored = behaviors (self m) /\
    experience restored = experience (self m) /\
    total_rewards restored = total_rewards (self m) /\
    learning_rate restored = lr' /\
    exploration_rate restored = er'.
Proof.
  intros m b' lr' er' Hw saved restored.
  pose proof (save_config_stores m Hw) as Hfile.
  destruct Hw as (_ & Hlog & _).
  unfold restored. rewrite (proj2 (init_spec _ _ _ _ _ _)).
  fold saved in Hfile.
  rewrite load_config_agent_after_record by exact Hlog.
  unfold load_config_agent. cbn [config_path agent_id new_agent].
  rewrite Hfile. cbn [readable document_of cfg_agent_id is_string].
  rewrite String.eqb_refl. repeat split.
Qed.

(** C3 (amended) at the agent of [main] after one step of learning,
    restored by an agent constructed with other behaviors and rates. *)
Lemma save_config_then_init_restores_witness :
  storable (config_path (self learner)) (env learner) /\
  experience
    (self (snd (__init__ "ontora_agent_001" [] (5 # 10) (1 # 10)
                         "agent_001_config.json"
                         (env (snd (save_config learner))))))
    = experience (self learner) /\
  learning_rate
    (self (snd (__init__ "ontora_agent_001" [] (5 # 10) (1 # 10)
                         "agent_001_config.json"
                         (env (snd (save_config learner))))))
    = 5 # 10.
Proof.
  assert (Hw : storable (config_path (self learner)) (env learner)).
  { split; [discriminate|]. split; [discriminate|]. now left. }
  split; [exact Hw|].
  destruct (@save_config_then_init_restores learner [] (5 # 10) (1 # 10) Hw)
    as (_ & He & _ & Hlr & _).
  split; assumption.
Defined.

(* ------------------------------------------------------------------ *)
(** ** The policy rates *)

Lemma update_learning_agent_rates action reward a :
  learning_rate (update_learning_agent action reward a) = learning_rate a /\
  exploration_rate (update_learning_agent action reward a) = exploration_rate a.
Proof.
  unfold update_learning_agent.
  destruct (current_state a) as [s|]; [|now split].
  destruct (Dict.lookup s (experience a)) as [row|]; now split.
Qed.

(** No call assigns [learning_rate] or [exploration_rate]. *)
Lemma perform_keeps_rates c m :
  learning_rate (self (snd (perform c m))) = learning_rate (self m) /\
  exploration_rate (self (snd (perform c m))) = exploration_rate (self m).
Proof.
  destruct (is_reload c) eqn:Ec.
  - destruct c; try discriminate. cbn [perform].
    rewrite (proj2 (load_config_spec m)).
    destruct (load_config_agent_rates (env m) (self m)) as (H1 & H2 & _).
    now rewrite H1, H2.
  - apply (@perform_keeps
             (fun a => learning_rate a = learning_rate (self m) /\
                       exploration_rate a = exploration_rate (self m))
             (fun _ => True)).
    + intros s a H. unfold set_state_agent.
      destruct (Dict.contains s _); exact H.
    + trivial.
    + intros action reward a [H1 H2] _.
      destruct (update_learning_agent_rates action reward a) as [-> ->]. auto.
    + split; reflexivity.
    + destruct c; cbn; trivial; discriminate.
Qed.

Lemma run_cons c cs m : run (c :: cs) m = run cs (snd (perform c m)).
Proof. reflexivity. Qed.

Lemma run_keeps_rates cs : forall m,
  learning_rate (self (run cs m)) = learning_rate (self m) /\
  exploration_rate (self (run cs m)) = exploration_rate (self m).
Proof.
  induction cs as [|c cs IH]; intros m; [now split|].
  rewrite run_cons. destruct (IH (snd (perform c m))) as [-> ->].
  apply perform_keeps_rates.
Qed.

(** C8. [load_config] never changes [learning_rate] or
    [exploration_rate]: whatever the storage location holds (a matching
    record, a record of another identity, nothing, unreadable or
    malformed text), the rates after a load are the rates before it;
    after construction, and after any further calls, [load_config] among
    them, they are the constructor's arguments. *)
Theorem load_config_keeps_policy_rates :
  (forall m,
     learning_rate (self (snd (load_config m))) = learning_rate (self m) /\
     exploration_rate (self (snd (load_config m))) = exploration_rate (self m)) /\
  (forall id b lr er path w cs,
     learning_rate (self (run cs (snd (__init__ id b lr er path w)))) = lr /\
     exploration_rate (self (run cs (snd (__init__ id b lr er path w)))) = er).
Proof.
  split.
  - intros m. rewrite (proj2 (load_config_spec m)).
    destruct (load_config_agent_rates (env m) (self m)) as (H1 & H2 & _).
    now rewrite H1, H2.
  - intros id b lr er path w cs.
    destruct (run_keeps_rates cs (snd (__init__ id b lr er path w))) as [-> ->].
    rewrite (proj2 (init_spec id b lr er path w)).
    destruct (load_config_agent_rates (after_record w) (new_agent id b lr er path))
      as (H1 & H2 & _).
    now rewrite H1, H2.
Qed.

(* ------------------------------------------------------------------ *)
(** ** The row of the current state *)

Lemma run_app cs1 cs2 m : run (cs1 ++ cs2) m = run cs2 (run cs1 m).
Proof. unfold run. apply fold_left_app. Qed.

(** [update_learning] assigns neither [current_state] nor
    [learning_rate]. *)
Lemma update_learning_agent_frame action reward a :
  current_state (update_learning_agent action reward a) = current_state a /\
  learning_rate (update_learning_agent action reward a) = learning_rate a.
Proof.
  unfold update_learning_agent.
  destruct (current_state a) as [s|] eqn:Es; [|now rewrite Es].
  destruct (Dict.lookup s (experience a)) as [row|]; [|now rewrite Es].
  split; [exact Es | reflexivity].
Qed.

Lemma set_state_agent_has_row s a : has_current_row (set_state_agent s a).
Proof.
  unfold has_current_row, set_state_agent. cbn.
  destruct (Dict.contains s (experience a)) eqn:E; cbn; intros s' [= <-].
  - unfold Dict.contains in E.
    destruct (Dict.lookup s (experience a)) as [row|]; [eauto | discriminate].
  - rewrite DictFacts.lookup_set_same. eauto.
Qed.

Lemma update_learning_agent_has_row action reward a :
  has_current_row a -> has_current_row (update_learning_agent action reward a).
Proof.
  unfold update_learning_agent. intros H.
  destruct (current_state a) as [s|] eqn:Es; [|exact H].
  destruct (Dict.lookup s (experience a)) as [row|] eqn:Er; [|exact H].
  unfold has_current_row. cbn. rewrite Es. intros s' [= <-].
  rewrite DictFacts.lookup_set_same. eauto.
Qed.

Lemma permitted_not_reload cs :
  forallb (fun c => negb (is_reload c)) cs = true ->
  Forall (permitted (fun _ => True)) cs.
Proof.
  rewrite forallb_forall, Forall_forall. intros H c Hc.
  specialize (H c Hc). destruct c; cbn in *; auto; discriminate.
Qed.

(** C10 fails as stated: [load_config] is a public operation, and called
    after [set_state] it replaces the table by the persisted one, which
    need not have a row for the current state.  Here the record was saved
    before the state was set. *)
Lemma load_config_drops_current_row :
  current_state
    (self (run [call_save_config; call_set_state "user_login"; call_load_config]
               demo)) = Some "user_login" /\
  Dict.lookup "user_login"
    (experience
       (self (run [call_save_config; call_set_state "user_login"; call_load_config]
                  demo))) = None /\
  In (ERROR, msg_update_error "ontora_agent_001" (KeyError "user_login"))
     (journal (env (run [call_save_config; call_set_state "user_login";
                         call_load_config; call_update_learning "idle" 1]
                        demo))).
Proof.
  split; [reflexivity|]. split; [reflexivity|].
  cbn. repeat (try (left; reflexivity); right).
Qed.

(** Calls that do not set a state leave [current_state] as it is. *)
Lemma perform_keeps_no_state c m :
  sets_state c = false ->
  current_state (self (snd (perform c m))) = current_state (self m).
Proof.
  intros Hc. destruct c; cbn [perform sets_state] in *; try discriminate.
  - rewrite (proj2 (load_config_spec m)).
    now destruct (load_config_agent_rates (env m) (self m)) as (_ & _ & -> & _).
  - now rewrite (proj2 (save_config_spec m)).
  - unfold bind, ret. pose proof (choose_action_self m) as S.
    destruct (choose_action m) as [[x|e] m']; cbn [fst snd] in *; now rewrite S.
  - unfold bind, ret. pose proof (proj2 (perform_action_spec action m)) as S.
    destruct (perform_action action m) as [[x|e] m']; cbn [fst snd] in *;
      now rewrite S.
  - rewrite (proj2 (update_learning_spec action reward m)).
    apply update_learning_agent_frame.
  - reflexivity.
Qed.

Lemma run_keeps_no_state cs : forall m,
  forallb (fun c => negb (sets_state c)) cs = true ->
  current_state (self (run cs m)) = current_state (self m).
Proof.
  induction cs as [|c cs IH]; intros m Hcs; [reflexivity|].
  cbn [forallb] in Hcs. apply andb_true_iff in Hcs as [Hc Hcs].
  rewrite run_cons, IH by exact Hcs.
  apply perform_keeps_no_state. now apply negb_true_iff.
Qed.

(** One iteration of [evolve] leaves the state it was given current, with
    its row, whatever the object was before. *)
Lemma evolve_iteration_has_row state m :
  has_current_row (self (snd (evolve_iteration state m))).
Proof.
  unfold evolve_iteration, bind.
  destruct (set_state_spec state m) as [E1 S1].
  destruct (set_state state m) as [o1 m1]. cbn [fst snd] in *. subst o1.
  assert (HP1 : has_current_row (self m1))
    by (rewrite S1; apply set_state_agent_has_row).
  pose proof (choose_action_self m1) as S2.
  destruct (choose_action m1) as [[action|e] m2]; cbn [fst snd] in *;
    [|now rewrite S2].
  destruct (perform_action_spec action m2) as [[reward E3] S3].
  destruct (perform_action action m2) as [o3 m3]. cbn [fst snd] in *. subst o3.
  destruct (update_learning_spec action reward m3) as [E4 S4].
  destruct (update_learning action reward m3) as [o4 m4].
  cbn [fst snd] in *. subst o4.
  destruct m4 as [a4 w4]. step_m. cbn in S4. rewrite S4, S3, S2.
  now apply update_learning_agent_has_row.
Qed.

(** The object after [evolve] is the object after its loop. *)
Lemma evolve_self_loop num_iterations state_sequence m :
  self (snd (evolve num_iterations state_sequence m)) =
  self (snd (snd (evolve_loop (iterations_of num_iterations state_sequence) [] m))).
Proof.
  unfold evolve, iterations_of.
  match goal with
  | |- context [evolve_loop ?its ?h m] =>
      destruct (evolve_loop its h m) as [history [looped m1]]
  end.
  cbn [fst snd]. unfold bind.
  destruct looped as [[]|e].
  - destruct (save_config_spec m1) as [E S]. unfold try_except.
    destruct (save_config m1) as [o m2]. cbn [fst snd] in *. subst o.
    cbn. exact S.
  - destruct m1 as [a1 w1]. reflexivity.
Qed.

(** A call that makes a state current gives it its row. *)
Lemma perform_establishes c m :
  establishes c = true -> has_current_row (self (snd (perform c m))).
Proof.
  intros Hc. destruct c; cbn [perform establishes] in *; try discriminate.
  - rewrite (proj2 (set_state_spec state m)). apply set_state_agent_has_row.
  - assert (H : has_current_row
                  (self (snd (evolve num_iterations state_sequence m)))).
    { rewrite evolve_self_loop.
      destruct (iterations_of num_iterations state_sequence) as [|s rest];
        [discriminate|].
      cbn [evolve_loop].
      pose proof (evolve_iteration_has_row s m) as H1.
      destruct (evolve_iteration s m) as [[entry|e] m1]; cbn [fst snd] in *;
        [|exact H1].
      apply (@evolve_loop_keeps has_current_row (fun _ => True)); auto.
      - intros s' a _. apply set_state_agent_has_row.
      - intros action reward a H _. now apply update_learning_agent_has_row. }
    unfold bind, ret.
    destruct (evolve num_iterations state_sequence m) as [[x|e] m'];
      cbn [fst snd] in *; exact H.
Qed.

(** Calls other than [load_config] keep the row of the current state. *)
Lemma run_keeps_current_row cs m :
  forallb (fun c => negb (is_reload c)) cs = true ->
  has_current_row (self m) -> has_current_row (self (run cs m)).
Proof.
  intros Hcs H.
  apply (@run_keeps has_current_row (fun _ => True)).
  - intros s a _. apply set_state_agent_has_row.
  - trivial.
  - intros action reward a Ha _. now apply update_learning_agent_has_row.
  - exact H.
  - now apply permitted_not_reload.
Qed.

(** C10 (amended). In every state reached from construction by public
    operations, in a world whose records are typed as [save_config]
    writes them, whenever [current_state] is set the experience table has
    a row for it, so the lookup [experience[current_state]] of
    [update_learning] succeeds, unless [load_config] was called after the
    state was set and no state has been set since.  Here the operations
    are [earlier] followed by [later]; no [load_config] is among [later],
    and either no call of [earlier] sets a state or [later] starts with
    one that does ([set_state], or [evolve] with a state to iterate
    over). *)
Theorem current_state_has_row :
  forall id b lr er path w earlier later,
    forallb (fun c => negb (is_reload c)) later = true ->
    forallb (fun c => negb (sets_state c)) earlier = true \/
    (exists c rest, later = c :: rest /\ establishes c = true) ->
    forall s,
      current_state
        (self (run (earlier ++ later) (snd (__init__ id b lr er path w)))) = Some s ->
      exists row,
        Dict.lookup s
          (experience
             (self (run (earlier ++ later) (snd (__init__ id b lr er path w)))))
          = Some row.
Proof.
  intros id b lr er path w earlier later Hlater Hcase.
  change (has_current_row
            (self (run (earlier ++ later) (snd (__init__ id b lr er path w))))).
  rewrite run_app.
  destruct Hcase as [Hearlier | (c & rest & -> & Hc)].
  - apply run_keeps_current_row; [exact Hlater|].
    intros s. rewrite run_keeps_no_state by exact Hearlier.
    rewrite (proj2 (init_spec id b lr er path w)).
    destruct (load_config_agent_rates (after_record w) (new_agent id b lr er path))
      as (_ & _ & -> & _).
    discriminate.
  - rewrite run_cons. cbn [forallb] in Hlater.
    apply andb_true_iff in Hlater as [_ Hrest].
    apply run_keeps_current_row; [exact Hrest|].
    now apply perform_establishes.
Qed.

(** C10 (amended) at the agent of [main]: it saves, observes a state and
    reloads, which drops the row; the run of [main] that follows gives the
    state current at its end its row. *)
Lemma current_state_has_row_witness :
  exists row,
    Dict.lookup "wallet_connected"
      (experience
         (self (run ([call_save_config; call_set_state "user_login";
                      call_load_config] ++
                     [call_evolve 10 (Some ["user_login"; "wallet_connected"]);
                      call_get_summary])
                    (snd (__init__ "ontora_agent_001" initial_behaviors (1 # 10)
                               (2 # 10) "agent_001_config.json"
                               (blank_world zero_draws))))))
    = Some row.
Proof.
  apply (@current_state_has_row "ontora_agent_001" initial_behaviors (1 # 10)
           (2 # 10) "agent_001_config.json" (blank_world zero_draws)
           [call_save_config; call_set_state "user_login"; call_load_config]
           [call_evolve 10 (Some ["user_login"; "wallet_connected"]);
            call_get_summary]
           eq_refl).
  - right. eexists. eexists. split; reflexivity.
  - reflexivity.
Defined.

(* ------------------------------------------------------------------ *)
(** ** Keys of [behaviors] and of the rows *)

Lemma in_keys_zero_row a k :
  In k (Dict.keys (zero_row a)) <-> In k (Dict.keys (behaviors a)).
Proof. apply DictFacts.in_keys_comprehension. Qed.

(** Every value of a row [set_state] creates is [0.0]. *)
Lemma zero_row_get a action : Dict.get action (zero_row a) 0 = 0.
Proof.
  unfold Dict.get, zero_row.
  destruct (Dict.lookup action (Dict.comprehension (Dict.keys (behaviors a)) 0))
    as [x|] eqn:E; [|reflexivity].
  now apply DictFacts.lookup_comprehension in E.
Qed.

Lemma set_state_agent_settled ks s a :
  keys_settled ks a -> keys_settled ks (set_state_agent s a).
Proof.
  intros [Hin Hks]. unfold set_state_agent.
  change (experience (with_current_state (Some s) a)) with (experience a).
  destruct (Dict.contains s (experience a)) eqn:E.
  - split; [exact Hin | exact Hks].
  - split; [|exact Hks]. intros s' row.
    cbn [experience with_experience]. rewrite DictFacts.lookup_set.
    destruct (String.eqb s' s).
    + intros [= <-] k.
      apply (in_keys_zero_row (with_current_state (Some s) a)).
    + apply Hin.
Qed.

Lemma choosable_settled ks a action :
  keys_settled ks a -> choosable a action -> In action ks.
Proof.
  intros [Hin <-] [H|(s & _ & H)]; [exact H|].
  unfold state_row, Dict.get in H.
  destruct (Dict.lookup s (experience a)) as [row|] eqn:E.
  - now apply (Hin s row E).
  - now apply in_keys_zero_row.
Qed.

Lemma update_learning_agent_settled ks action reward a :
  keys_settled ks a -> In action ks ->
  keys_settled ks (update_learning_agent action reward a).
Proof.
  intros [Hin Hks] Hact. unfold update_learning_agent.
  destruct (current_state a) as [s|]; [|now split].
  destruct (Dict.lookup s (experience a)) as [row|] eqn:E; [|now split].
  rewrite <- Hks in Hact.
  split; unfold learn.
  - intros s' row'.
    cbn [experience behaviors with_experience with_behaviors
         with_total_rewards].
    rewrite DictFacts.lookup_set.
    destruct (String.eqb s' s).
    + intros [= <-] k. rewrite !DictFacts.in_keys_set.
      intros [->|H]; [now left | right; now apply (Hin s row E)].
    + intros E' k H. rewrite DictFacts.in_keys_set. right.
      now apply (Hin s' row' E').
  - cbn [experience behaviors with_experience with_behaviors
         with_total_rewards].
    rewrite DictFacts.keys_set_bound; assumption.
Qed.

(** Calls in [admissible] order keep the rows within the keys and the key
    list as it is. *)
Lemma run_settled cs m :
  rows_within (self m) ->
  Forall (admissible (Dict.keys (behaviors (self m)))) cs ->
  keys_settled (Dict.keys (behaviors (self m))) (self (run cs m)).
Proof.
  intros Hin Hcs.
  apply (@run_keeps (keys_settled (Dict.keys (behaviors (self m))))
                    (fun action => In action (Dict.keys (behaviors (self m))))).
  - intros s a. apply set_state_agent_settled.
  - intros a action. apply choosable_settled.
  - intros action reward a. apply update_learning_agent_settled.
  - now split.
  - exact Hcs.
Qed.

Lemma set_state_agent_complete s a :
  rows_complete a -> rows_complete (set_state_agent s a).
Proof.
  intros Hc. unfold set_state_agent.
  change (experience (with_current_state (Some s) a)) with (experience a).
  destruct (Dict.contains s (experience a)) eqn:E; [exact Hc|].
  intros s' row. cbn [experience with_experience].
  rewrite DictFacts.lookup_set.
  destruct (String.eqb s' s).
  - intros [= <-] k Hk. apply DictFacts.contains_in_keys.
    now apply (in_keys_zero_row (with_current_state (Some s) a)).
  - apply Hc.
Qed.

Lemma update_learning_agent_complete action reward a :
  rows_complete a -> In action (Dict.keys (behaviors a)) ->
  rows_complete (update_learning_agent action reward a).
Proof.
  intros Hc Hact. unfold update_learning_agent.
  destruct (current_state a) as [s|]; [|exact Hc].
  destruct (Dict.lookup s (experience a)) as [row|] eqn:E; [|exact Hc].
  intros s' row'. unfold learn.
  cbn [experience behaviors with_experience with_behaviors with_total_rewards].
  rewrite DictFacts.keys_set_bound by exact Hact.
  rewrite DictFacts.lookup_set.
  destruct (String.eqb s' s).
  - intros [= <-] k Hk. apply DictFacts.contains_in_keys.
    apply DictFacts.in_keys_set. right.
    apply DictFacts.contains_in_keys. now apply (Hc s row E).
  - apply Hc.
Qed.

(** Calls in [admissible] order keep complete rows complete. *)
Lemma run_complete cs m :
  rows_within (self m) -> rows_complete (self m) ->
  Forall (admissible (Dict.keys (behaviors (self m)))) cs ->
  rows_complete (self (run cs m)).
Proof.
  intros Hin Hc Hcs.
  apply (@run_keeps
           (fun a => keys_settled (Dict.keys (behaviors (self m))) a /\
                     rows_complete a)
           (fun action => In action (Dict.keys (behaviors (self m))))).
  - intros s a [Hs Hco]. split.
    + now apply set_state_agent_settled.
    + now apply set_state_agent_complete.
  - intros a action [Hs _]. now apply choosable_settled.
  - intros action reward a [Hs Hco] Hact. split.
    + now apply update_learning_agent_settled.
    + apply update_learning_agent_complete; [exact Hco|].
      destruct Hs as [_ ->]. exact Hact.
  - repeat split; assumption.
  - exact Hcs.
Qed.

(** An object with an empty table has its rows within the keys, and
    complete; so has every newly constructed agent that restored no
    record. *)
Lemma empty_table_rows a :
  experience a = [] -> rows_within a /\ rows_complete a.
Proof. intros E. split; intros s row; rewrite E; discriminate. Qed.

(** Why [load_config] is set apart: at construction, and at every later
    call, it replaces [behaviors] by the persisted mapping, whatever its
    keys. *)
Example load_config_replaces_behaviors :
  Dict.keys
    (behaviors
       (self (snd (__init__ "ontora_agent_001" initial_behaviors (1 # 10) 0
                        "agent_001_config.json" own_world))))
    = ["idle"].
Proof. reflexivity. Qed.

(** Why the rows must be keyed by the actions of [behaviors]: a restored
    row may name another action; the greedy choice returns it and [evolve]
    then adds it to [behaviors]. *)
Example evolve_adopts_key_of_restored_row :
  Dict.keys
    (behaviors
       (self (run [call_evolve 0 (Some ["user_login"])]
                  (snd (__init__ "ontora_agent_001" initial_behaviors (1 # 10) 0
                             "agent_001_config.json" own_world)))))
    = ["idle"; "mint_tokens"].
Proof. reflexivity. Qed.

(** C2 fails as stated: [update_learning] called with an action that is
    not a key of [behaviors] adds it. *)
Lemma update_learning_adds_unknown_action :
  Dict.keys (behaviors (self demo))
    = ["stake_tokens"; "claim_rewards"; "analyze_data"; "idle"] /\
  Dict.keys
    (behaviors
       (self (run [call_set_state "user_login";
                   call_update_learning "mint_tokens" 1] demo)))
    = ["stake_tokens"; "claim_rewards"; "analyze_data"; "idle"; "mint_tokens"].
Proof. split; reflexivity. Qed.

(** Calls other than [load_config] only ever append keys to
    [behaviors]. *)
Lemma run_extends_keys cs m :
  forallb (fun c => negb (is_reload c)) cs = true ->
  exists added,
    Dict.keys (behaviors (self (run cs m))) =
    Dict.keys (behaviors (self m)) ++ added.
Proof.
  intros Hcs.
  apply (@run_keeps
           (fun a => exists added,
              Dict.keys (behaviors a) = Dict.keys (behaviors (self m)) ++ added)
           (fun _ => True)).
  - intros s a H. unfold set_state_agent.
    destruct (Dict.contains s _); exact H.
  - trivial.
  - intros action reward a [added H] _. unfold update_learning_agent.
    destruct (current_state a) as [s|]; [|now exists added].
    destruct (Dict.lookup s (experience a)) as [row|]; [|now exists added].
    unfold learn.
    cbn [experience behaviors with_experience with_behaviors
         with_total_rewards].
    destruct (in_dec string_dec action (Dict.keys (behaviors a))) as [Hin|Hin].
    + exists added. now rewrite DictFacts.keys_set_bound.
    + exists (added ++ [action]).
      now rewrite DictFacts.keys_set_unbound, H, app_assoc.
  - exists []. now rewrite app_nil_r.
  - now apply permitted_not_reload.
Qed.

(** C2 (amended). No public operation other than [load_config] removes
    or reorders a key of [behaviors]: after every sequence of such
    operations the key list is the former one, possibly followed by added
    keys.  From a state whose rows have no key that [behaviors] lacks (as
    after a construction that restored no record), when moreover
    [update_learning] is called only with actions that are keys of
    [behaviors], the key list is unchanged. *)
Theorem behaviors_keys_kept :
  forall m cs,
    forallb (fun c => negb (is_reload c)) cs = true ->
    (exists added,
       Dict.keys (behaviors (self (run cs m))) =
       Dict.keys (behaviors (self m)) ++ added) /\
    (rows_within (self m) ->
     Forall (admissible (Dict.keys (behaviors (self m)))) cs ->
     Dict.keys (behaviors (self (run cs m))) = Dict.keys (behaviors (self m))).
Proof.
  intros m cs Hcs. split.
  - now apply run_extends_keys.
  - intros Hal Hadm. exact (proj2 (@run_settled cs m Hal Hadm)).
Qed.

(** C2 (amended) on the run of [main] followed by a direct update. *)
Lemma behaviors_keys_kept_witness :
  rows_within (self demo) /\
  Dict.keys
    (behaviors
       (self (run [call_evolve 10 (Some ["user_login"; "wallet_connected"]);
                   call_update_learning "idle" 1; call_save_config] demo)))
    = Dict.keys (behaviors (self demo)).
Proof.
  split; [now apply empty_table_rows|].
  apply (@behaviors_keys_kept demo
           [call_evolve 10 (Some ["user_login"; "wallet_connected"]);
            call_update_learning "idle" 1; call_save_config] eq_refl).
  - now apply empty_table_rows.
  - repeat (apply Forall_cons || apply Forall_nil); cbn; tauto.
Defined.

(** [set_state] on a state not seen before creates a row that has an entry
    for exactly the keys of [behaviors], each 0.0. *)
Lemma set_state_fresh_row s m :
  Dict.contains s (experience (self m)) = false ->
  exists row,
    Dict.lookup s (experience (self (snd (set_state s m)))) = Some row /\
    (forall k, In k (Dict.keys row) <-> In k (Dict.keys (behaviors (self m)))) /\
    (forall k, Dict.get k row 0 = 0).
Proof.
  intros Hnew. exists (zero_row (self m)).
  rewrite (proj2 (set_state_spec s m)). unfold set_state_agent.
  change (experience (with_current_state (Some s) (self m)))
    with (experience (self m)).
  rewrite Hnew. cbn [experience with_experience].
  rewrite DictFacts.lookup_set_same.
  split; [reflexivity|]. split.
  - intros k. apply in_keys_zero_row.
  - intros k. apply zero_row_get.
Qed.

(** C4 fails as stated: an [update_learning] with a new action adds the
    action to [behaviors] and to the row of the current state only; the
    rows of the other states have no entry for it. *)
Lemma update_learning_leaves_other_rows_incomplete :
  In "mint_tokens"
     (Dict.keys
        (behaviors
           (self (run [call_set_state "user_login";
                       call_set_state "low_balance";
                       call_update_learning "mint_tokens" 1] demo)))) /\
  Dict.lookup "user_login"
    (experience
       (self (run [call_set_state "user_login";
                   call_set_state "low_balance";
                   call_update_learning "mint_tokens" 1] demo)))
    = Some [("stake_tokens", 0); ("claim_rewards", 0);
            ("analyze_data", 0); ("idle", 0)] /\
  Dict.contains "mint_tokens"
    [("stake_tokens", 0); ("claim_rewards", 0);
     ("analyze_data", 0); ("idle", 0)] = false.
Proof.
  split; [cbn; tauto|]. split; reflexivity.
Qed.

(** C4 (amended). From a state in which every row has an entry for every
    key of [behaviors] and no other key (as after a construction that
    restored no record), after every sequence of public operations other
    than [load_config], in which [update_learning] is called only with
    actions that are keys of [behaviors], every row of the table has an
    entry for every key of [behaviors]. *)
Theorem rows_stay_complete :
  forall m cs,
    rows_within (self m) ->
    rows_complete (self m) ->
    Forall (admissible (Dict.keys (behaviors (self m)))) cs ->
    forall s row,
      Dict.lookup s (experience (self (run cs m))) = Some row ->
      forall k,
        In k (Dict.keys (behaviors (self (run cs m)))) ->
        Dict.contains k row = true.
Proof.
  intros m cs Hin Hc Hcs. exact (@run_complete cs m Hin Hc Hcs).
Qed.

(** C4 (amended) on the run of [main] followed by a new state and a direct
    update. *)
Lemma rows_stay_complete_witness :
  rows_within (self demo) /\ rows_complete (self demo) /\
  rows_complete
    (self (run [call_evolve 10 (Some ["user_login"; "wallet_connected"]);
                call_set_state "low_balance";
                call_update_learning "idle" 1] demo)).
Proof.
  split; [now apply empty_table_rows|]. split; [now apply empty_table_rows|].
  exact (@rows_stay_complete demo
           [call_evolve 10 (Some ["user_login"; "wallet_connected"]);
            call_set_state "low_balance"; call_update_learning "idle" 1]
           (proj1 (empty_table_rows (self demo) eq_refl))
           (proj2 (empty_table_rows (self demo) eq_refl))
           ltac:(repeat (apply Forall_cons || apply Forall_nil); cbn; tauto)).
Defined.

(* ------------------------------------------------------------------ *)
(** ** [update_learning] *)

(** What [update_learning] assigns when the current state has its row. *)
Lemma update_learning_effect m s row action reward :
  current_state (self m) = Some s ->
  Dict.lookup s (experience (self m)) = Some row ->
  self (snd (update_learning action reward m)) =
    learn s action reward row (self m).
Proof.
  intros Hs Hrow. rewrite (proj2 (update_learning_spec action reward m)).
  unfold update_learning_agent. now rewrite Hs, Hrow.
Qed.

Lemma stored_value_learn s action reward row a :
  stored_value (learn s action reward row a) s action =
    Dict.get action row 0 + learning_rate a * (reward - Dict.get action row 0).
Proof.
  unfold stored_value, learn.
  cbn [experience behaviors with_experience with_behaviors with_total_rewards].
  now rewrite !DictFacts.get_set_same.
Qed.

(** C5 fails as stated: a state can be set without a row for it (after a
    reload that restored a table saved earlier); [update_learning] then
    raises [KeyError] inside its [try], and nothing is assigned: the reward
    1 is not added to the total and the weight of the action stays. *)
Lemma update_learning_without_row_assigns_nothing :
  current_state (self reloaded) = Some "user_login" /\
  total_rewards (self reloaded) = 0 /\
  total_rewards (self (snd (update_learning "idle" 1 reloaded))) = 0 /\
  behaviors (self (snd (update_learning "idle" 1 reloaded))) =
    behaviors (self reloaded) /\
  experience (self (snd (update_learning "idle" 1 reloaded))) = [].
Proof. repeat split. Qed.

(** C5 (amended). For every agent whose current state is set and has a
    row in the experience table, [update_learning(action, reward)] sets the
    row's entry for [action] to
    [old_value + learning_rate * (reward - old_value)], with [old_value]
    the entry before (0.0 when absent), leaves the rest of the table as it
    was, sets [behaviors[action]] to
    [behaviors.get(action, 0.0) + learning_rate * reward], and increases
    [total_rewards] by [reward]; when [old_value] is zero, as in a fresh
    row, the new entry equals [learning_rate * reward]. *)
Theorem update_learning_assigns :
  forall m s row action reward,
    current_state (self m) = Some s ->
    Dict.lookup s (experience (self m)) = Some row ->
    let a := self m in
    let a' := self (snd (update_learning action reward m)) in
    let old_value := Dict.get action row 0 in
    let new_value := old_value + learning_rate a * (reward - old_value) in
    experience a' = Dict.set s (Dict.set action new_value row) (experience a) /\
    stored_value a' s action = new_value /\
    behaviors a' =
      Dict.set action (Dict.get action (behaviors a) 0 + learning_rate a * reward)
               (behaviors a) /\
    Dict.get action (behaviors a') 0 =
      Dict.get action (behaviors a) 0 + learning_rate a * reward /\
    total_rewards a' = total_rewards a + reward /\
    (old_value == 0 -> stored_value a' s action == learning_rate a * reward).
Proof.
  intros m s row action reward Hs Hrow a a' old_value new_value.
  unfold a'. rewrite (update_learning_effect m action reward Hs Hrow).
  fold a. rewrite stored_value_learn. fold old_value. fold new_value.
  repeat split.
  - unfold learn.
    cbn [experience behaviors with_experience with_behaviors with_total_rewards].
    now rewrite DictFacts.get_set_same.
  - intros H0. unfold new_value. rewrite H0. ring.
Qed.

(** C5 (amended) at the agent of [main] in a state it has just observed:
    one update with reward 1 at rate 0.1 stores 0.1. *)
Lemma update_learning_assigns_witness :
  current_state (self (run [call_set_state "user_login"] demo))
    = Some "user_login" /\
  stored_value
    (self (snd (update_learning "idle" 1
                  (run [call_set_state "user_login"] demo))))
    "user_login" "idle" == (1 # 10) * 1.
Proof.
  split; [reflexivity|].
  exact (proj2 (proj2 (proj2 (proj2 (proj2
    (@update_learning_assigns
       (run [call_set_state "user_login"] demo) "user_login"
       [("stake_tokens", 0); ("claim_rewards", 0); ("analyze_data", 0);
        ("idle", 0)]
       "idle" 1 eq_refl eq_refl))))) (Qeq_refl 0)).
Defined.

(** The fresh row of C5: an update right after [set_state] on a state not
    seen before stores [learning_rate * reward]. *)
Lemma update_learning_fresh_row m s action reward :
  Dict.contains s (experience (self m)) = false ->
  stored_value
    (self (snd (update_learning action reward (snd (set_state s m)))))
    s action == learning_rate (self m) * reward.
Proof.
  intros Hnew.
  pose proof (proj2 (set_state_spec s m)) as S.
  assert (Hs : current_state (self (snd (set_state s m))) = Some s).
  { rewrite S. unfold set_state_agent.
    destruct (Dict.contains s _); reflexivity. }
  assert (Hrow : Dict.lookup s (experience (self (snd (set_state s m)))) =
                 Some (zero_row (self m))).
  { rewrite S. unfold set_state_agent.
    change (experience (with_current_state (Some s) (self m)))
      with (experience (self m)).
    rewrite Hnew. cbn [experience with_experience].
    now rewrite DictFacts.lookup_set_same. }
  rewrite (update_learning_effect _ action reward Hs Hrow).
  rewrite stored_value_learn, zero_row_get.
  assert (Hlr : learning_rate (self (snd (set_state s m))) =
                learning_rate (self m)).
  { rewrite S. unfold set_state_agent.
    destruct (Dict.contains s _); reflexivity. }
  rewrite Hlr. ring.
Qed.

(* ------------------------------------------------------------------ *)
(** ** Greedy choice *)

(** With [exploration_rate = 0] the test [random.random() < exploration_rate]
    fails, and [choose_action] is [max] over the row of the state. *)
Lemma choose_action_exploits m s :
  exploration_rate (self m) == 0 ->
  current_state (self m) = Some s ->
  exists m', fst (choose_action m) = fst (max_key (state_row (self m) s) m').
Proof.
  destruct m as [a w]. cbn [self]. intros Her Hs.
  unfold choose_action. step_m. rewrite Hs. step_m.
  match goal with |- context [Qltb ?u _] =>
    assert (Hu : Qltb u (exploration_rate a) = false)
  end.
  { apply Qltb_false. rewrite Her. unfold Qle. cbn.
    rewrite Z.mul_1_r. apply N2Z.is_nonneg. }
  rewrite Hu. fold (state_row a s).
  match goal with |- context [max_key _ ?m1] => exists m1 end.
  destruct (max_key_cases (state_row a s)
              {| self := a;
                 env := {| files := files w; journal := journal w;
                           entropy := entropy w; cursor := S (cursor w);
                           clock := clock w |} |})
    as [[Hd ->] | (action & -> & _)]; reflexivity.
Qed.

(** C6 fails as stated: an agent constructed with no behaviors has, once
    a state is set, an empty row; with [exploration_rate = 0]
    [choose_action] then returns no action ([max] of an empty row
    raises). *)
Lemma choose_action_greedy_empty_row :
  exploration_rate (self bare_observing) = 0 /\
  current_state (self bare_observing) = Some "user_login" /\
  state_row (self bare_observing) "user_login" = [] /\
  fst (choose_action bare_observing) = Raise ValueError.
Proof. repeat split. Qed.

(** *** Line 130 in binary64 *)

Lemma SFleb_rank f1 f2 :
  f1 <> SpecFloat.S754_nan -> f2 <> SpecFloat.S754_nan ->
  (SpecFloat.SFleb f1 f2 = true <-> rank_le (SFrank f1) (SFrank f2)).
Proof.
  intros H1 H2. unfold SpecFloat.SFleb, SpecFloat.SFcompare.
  destruct f1 as [[|]|[|]| |[|] m1 e1], f2 as [[|]|[|]| |[|] m2 e2];
    try congruence; cbn [SFrank rank_le];
    try (split; [intros _; lia | reflexivity]);
    try (split; [discriminate | lia]);
    change (Pos.compare_cont Eq m1 m2) with (Pos.compare m1 m2);
    destruct (Z.compare_spec e1 e2); destruct (Pos.compare_spec m1 m2);
    cbn [CompOpp]; split; try discriminate; try reflexivity; try lia.
Qed.

Lemma SFltb_rank f1 f2 :
  f1 <> SpecFloat.S754_nan -> f2 <> SpecFloat.S754_nan ->
  (SpecFloat.SFltb f1 f2 = false <-> rank_le (SFrank f2) (SFrank f1)).
Proof.
  intros H1 H2. unfold SpecFloat.SFltb, SpecFloat.SFcompare.
  destruct f1 as [[|]|[|]| |[|] m1 e1], f2 as [[|]|[|]| |[|] m2 e2];
    try congruence; cbn [SFrank rank_le];
    try (split; [intros _; lia | reflexivity]);
    try (split; [discriminate | lia]);
    change (Pos.compare_cont Eq m1 m2) with (Pos.compare m1 m2);
    destruct (Z.compare_spec e1 e2); destruct (Pos.compare_spec m1 m2);
    cbn [CompOpp]; split; try discriminate; try reflexivity; try lia.
Qed.

Lemma rank_le_trans a b c : rank_le a b -> rank_le b c -> rank_le a c.
Proof. destruct a as [[? ?] ?], b as [[? ?] ?], c as [[? ?] ?]. cbn. lia. Qed.

Lemma rank_le_refl a : rank_le a a.
Proof. destruct a as [[? ?] ?]. cbn. lia. Qed.

Lemma rank_le_total a b : rank_le a b \/ rank_le b a.
Proof. destruct a as [[? ?] ?], b as [[? ?] ?]. cbn. lia. Qed.

Lemma is_nan_false x :
  PrimFloat.is_nan x = false -> FloatOps.Prim2SF x <> SpecFloat.S754_nan.
Proof.
  unfold PrimFloat.is_nan. rewrite FloatAxioms.eqb_spec. intros H E.
  rewrite E in H. discriminate.
Qed.

(** On floats other than NaN, [<=] is the order of the ranks, and [<]
    fails exactly where [>=] holds. *)
Lemma leb_rank x y :
  PrimFloat.is_nan x = false -> PrimFloat.is_nan y = false ->
  (PrimFloat.leb x y = true <->
   rank_le (SFrank (FloatOps.Prim2SF x)) (SFrank (FloatOps.Prim2SF y))).
Proof.
  intros Hx Hy. rewrite FloatAxioms.leb_spec.
  apply SFleb_rank; now apply is_nan_false.
Qed.

Lemma ltb_rank x y :
  PrimFloat.is_nan x = false -> PrimFloat.is_nan y = false ->
  (PrimFloat.ltb x y = false <->
   rank_le (SFrank (FloatOps.Prim2SF y)) (SFrank (FloatOps.Prim2SF x))).
Proof.
  intros Hx Hy. rewrite FloatAxioms.ltb_spec.
  apply SFltb_rank; now apply is_nan_false.
Qed.

Section ArgmaxBinary64.
Variable d : Dict.t PrimFloat.float.
Hypothesis d_numbers :
  forall k, In k (Dict.keys d) ->
    PrimFloat.is_nan (Dict.get k d PrimFloat.zero) = false.

Lemma better_binary64_spec best k' :
  In best (Dict.keys d) -> In k' (Dict.keys d) ->
  (better_binary64 d best k' = best \/ better_binary64 d best k' = k') /\
  rank_le (rank_of d best) (rank_of d (better_binary64 d best k')) /\
  rank_le (rank_of d k') (rank_of d (better_binary64 d best k')).
Proof.
  intros Hb Hk. unfold better_binary64, rank_of.
  pose proof (@ltb_rank _ _ (d_numbers best Hb) (d_numbers k' Hk)) as Hlt.
  destruct (PrimFloat.ltb (Dict.get best d PrimFloat.zero)
                          (Dict.get k' d PrimFloat.zero)).
  - split; [now right|]. split; [|apply rank_le_refl].
    destruct (rank_le_total
                (SFrank (FloatOps.Prim2SF (Dict.get best d PrimFloat.zero)))
                (SFrank (FloatOps.Prim2SF (Dict.get k' d PrimFloat.zero))))
      as [H|H]; [exact H|].
    apply Hlt in H. discriminate.
  - split; [now left|]. split; [apply rank_le_refl|]. now apply Hlt.
Qed.

Lemma fold_better_binary64 (ks : list string) : forall best,
  In best (Dict.keys d) -> (forall k, In k ks -> In k (Dict.keys d)) ->
  (fold_left (better_binary64 d) ks best = best \/
   In (fold_left (better_binary64 d) ks best) ks) /\
  rank_le (rank_of d best) (rank_of d (fold_left (better_binary64 d) ks best)) /\
  (forall k, In k ks ->
     rank_le (rank_of d k) (rank_of d (fold_left (better_binary64 d) ks best))).
Proof.
  induction ks as [|k0 ks IH]; intros best Hb Hks; cbn [fold_left].
  - split; [now left|]. split; [apply rank_le_refl|]. intros k [].
  - assert (Hk0 : In k0 (Dict.keys d)) by (apply Hks; now left).
    destruct (@better_binary64_spec best k0 Hb Hk0) as (Hcase & Hle1 & Hle2).
    assert (Hb' : In (better_binary64 d best k0) (Dict.keys d))
      by (destruct Hcase as [-> | ->]; assumption).
    destruct (IH (better_binary64 d best k0) Hb'
                 (fun k H => Hks k (or_intror H))) as (Hin & Hle & Hall).
    split; [|split].
    + destruct Hin as [Hin|Hin]; [|right; now right].
      rewrite Hin. destruct Hcase as [-> | ->]; [now left | right; now left].
    + eapply rank_le_trans; eassumption.
    + intros k [<-|Hk]; [eapply rank_le_trans; eassumption | now apply Hall].
Qed.

End ArgmaxBinary64.

(** [max] over a non-empty row of floats that holds no NaN returns a key
    whose value no value of the row exceeds. *)
Lemma max_key_binary64_spec (d : Dict.t PrimFloat.float) :
  (forall k, In k (Dict.keys d) ->
     PrimFloat.is_nan (Dict.get k d PrimFloat.zero) = false) ->
  d <> [] ->
  exists action,
    max_key_binary64 d = Some action /\
    In action (Dict.keys d) /\
    (forall k, In k (Dict.keys d) ->
       PrimFloat.leb (Dict.get k d PrimFloat.zero)
                     (Dict.get action d PrimFloat.zero) = true).
Proof.
  intros d_numbers Hd. unfold max_key_binary64.
  pose proof (@fold_better_binary64 d d_numbers) as Hfold.
  destruct (Dict.keys d) as [|k ks] eqn:E.
  - apply DictFacts.keys_nil_iff in E. contradiction.
  - destruct (Hfold ks k (or_introl eq_refl) (fun k' H => or_intror H))
      as (Hin & Hle & Hall).
    assert (Hr : In (fold_left (better_binary64 d) ks k) (k :: ks)).
    { destruct Hin as [->|Hin]; [now left | now right]. }
    eexists. split; [reflexivity|]. split; [exact Hr|].
    intros k' Hk'.
    apply (@leb_rank _ _ (d_numbers k' Hk') (d_numbers _ Hr)).
    destruct Hk' as [<-|Hk']; [exact Hle | now apply Hall].
Qed.

Section Binary64Rows.
Import PrimFloat.
Local Open Scope float_scope.

(** Why the rows are taken to hold numbers: over a row that holds a NaN,
    [max] can return an entry that is not the greatest.  Every comparison
    with NaN is false, so the first key stays the running maximum. *)
Example max_key_binary64_nan_row :
  max_key_binary64 [("stake_tokens", nan); ("idle", 1)] = Some "stake_tokens" /\
  (1 <=? nan) = false.
Proof. split; reflexivity. Qed.

End Binary64Rows.

(** C6 (amended). For every agent with [exploration_rate = 0], a current
    state set and a non-empty row for it that holds no NaN,
    [choose_action] returns an action of the row whose stored value is the
    largest of the row; when one action's value is strictly above all
    others, it is that action.  The first part is [choose_action] over
    the numbers of the model; the second part is its line 130 over binary64
    floats, where the restriction to rows without NaN is needed. *)
Theorem choose_action_greedy :
  (forall m s,
     exploration_rate (self m) == 0 ->
     current_state (self m) = Some s ->
     state_row (self m) s <> [] ->
     let row := state_row (self m) s in
     exists action,
       fst (choose_action m) = Return action /\
       In action (Dict.keys row) /\
       (forall k, In k (Dict.keys row) ->
                  Dict.get k row 0 <= Dict.get action row 0) /\
       (forall k, In k (Dict.keys row) ->
          (forall k', In k' (Dict.keys row) -> k' <> k ->
                      Dict.get k' row 0 < Dict.get k row 0) ->
          action = k)) /\
  (forall row : Dict.t PrimFloat.float,
     row <> [] ->
     (forall k, In k (Dict.keys row) ->
        PrimFloat.is_nan (Dict.get k row PrimFloat.zero) = false) ->
     exists action,
       max_key_binary64 row = Some action /\
       In action (Dict.keys row) /\
       (forall k, In k (Dict.keys row) ->
          PrimFloat.leb (Dict.get k row PrimFloat.zero)
                        (Dict.get action row PrimFloat.zero) = true)).
Proof.
  split.
  - intros m s Her Hs Hrow row.
    destruct (choose_action_exploits m Her Hs) as [m' ->].
    destruct (max_key_spec m' Hrow) as (action & -> & Hin & Hmax).
    exists action. fold row in Hin, Hmax. repeat split; auto.
    intros k Hk Hstrict.
    destruct (string_dec action k) as [E|E]; [exact E|].
    exfalso. specialize (Hstrict action Hin E). specialize (Hmax k Hk).
    apply (Qlt_not_le _ _ Hstrict Hmax).
  - intros row Hrow Hnum. now apply max_key_binary64_spec.
Qed.

(** C6 (amended) at the agent of [main] with [exploration_rate = 0] after
    one reward for ["idle"] in the observed state. *)
Lemma choose_action_greedy_witness :
  exploration_rate (self rewarded_idle) == 0 /\
  current_state (self rewarded_idle) = Some "user_login" /\
  exists action,
    fst (choose_action rewarded_idle) = Return action /\
    forall k,
      In k (Dict.keys (state_row (self rewarded_idle) "user_login")) ->
      Dict.get k (state_row (self rewarded_idle) "user_login") 0
        <= Dict.get action (state_row (self rewarded_idle) "user_login") 0.
Proof.
  split; [reflexivity|]. split; [reflexivity|].
  destruct (proj1 choose_action_greedy rewarded_idle "user_login"
              (Qeq_refl 0) eq_refl ltac:(discriminate))
    as (action & Hret & _ & Hmax & _).
  exists action. split; assumption.
Defined.

(** The action it picks is ["idle"]. *)
Example choose_action_rewarded_idle :
  fst (choose_action rewarded_idle) = Return "idle".
Proof. reflexivity. Qed.

(* ------------------------------------------------------------------ *)
(** ** Repeated updates with one reward *)

Lemma repeat_snoc {A} (x : A) n : repeat x (S n) = repeat x n ++ [x].
Proof.
  induction n as [|n IH]; [reflexivity|].
  cbn [repeat app] in *. now rewrite <- IH.
Qed.

(** One more call of [update_learning] after [n] of them. *)
Lemma run_repeat_update action reward n m :
  run (repeat (call_update_learning action reward) (S n)) m =
  snd (update_learning action reward
         (run (repeat (call_update_learning action reward) n) m)).
Proof. rewrite repeat_snoc, run_app. reflexivity. Qed.

Lemma run_repeat_update_frame action reward m n :
  let a := self (run (repeat (call_update_learning action reward) n) m) in
  current_state a = current_state (self m) /\
  learning_rate a = learning_rate (self m).
Proof.
  induction n as [|n IH]; cbn zeta in *; [auto|].
  rewrite run_repeat_update, (proj2 (update_learning_spec _ _ _)).
  destruct (update_learning_agent_frame action reward
              (self (run (repeat (call_update_learning action reward) n) m)))
    as [-> ->].
  exact IH.
Qed.

Lemma stored_value_row a s action row :
  Dict.lookup s (experience a) = Some row ->
  stored_value a s action = Dict.get action row 0.
Proof. intros H. unfold stored_value, Dict.get at 2. now rewrite H. Qed.

(** One call on the entry of the current state: the exponential moving
    average when the state has its row, nothing otherwise. *)
Lemma stored_value_update action reward s a :
  current_state a = Some s ->
  let v := stored_value a s action in
  let v' := stored_value (update_learning_agent action reward a) s action in
  v' = v + learning_rate a * (reward - v) \/ v' = v.
Proof.
  intros Hs v v'. unfold v', update_learning_agent. rewrite Hs.
  destruct (Dict.lookup s (experience a)) as [row|] eqn:Hrow.
  - left. rewrite stored_value_learn. unfold v.
    now rewrite (@stored_value_row a s action row Hrow).
  - right. reflexivity.
Qed.

Lemma value_after_step action reward s m n :
  current_state (self m) = Some s ->
  let v := value_after n action reward s m in
  let v' := value_after (S n) action reward s m in
  v' = v + learning_rate (self m) * (reward - v) \/ v' = v.
Proof.
  intros Hs. unfold value_after.
  destruct (run_repeat_update_frame action reward m n) as [Hs' Hlr].
  rewrite run_repeat_update, (proj2 (update_learning_spec _ _ _)).
  rewrite <- Hlr. apply stored_value_update. now rewrite Hs'.
Qed.

(** Repeated updates keep the row of the current state. *)
Lemma run_repeat_update_row action reward s m :
  current_state (self m) = Some s ->
  (exists row, Dict.lookup s (experience (self m)) = Some row) ->
  forall n,
    exists row,
      Dict.lookup s
        (experience (self (run (repeat (call_update_learning action reward) n) m)))
      = Some row.
Proof.
  intros Hs Hrow n. induction n as [|n [row IH]]; [exact Hrow|].
  destruct (run_repeat_update_frame action reward m n) as [Hs' _].
  rewrite Hs in Hs'.
  rewrite run_repeat_update, (update_learning_effect _ action reward Hs' IH).
  unfold learn.
  cbn [experience with_experience with_behaviors with_total_rewards].
  rewrite DictFacts.lookup_set_same. eauto.
Qed.

(** What one more update adds to the weight and to the total. *)
Lemma run_repeat_update_step action reward s m n :
  current_state (self m) = Some s ->
  (exists row, Dict.lookup s (experience (self m)) = Some row) ->
  let a := self (run (repeat (call_update_learning action reward) n) m) in
  let a' := self (run (repeat (call_update_learning action reward) (S n)) m) in
  total_rewards a' = total_rewards a + reward /\
  Dict.get action (behaviors a') 0 =
    Dict.get action (behaviors a) 0 + learning_rate (self m) * reward /\
  stored_value a' s action =
    stored_value a s action +
    learning_rate (self m) * (reward - stored_value a s action).
Proof.
  intros Hs Hrow a a'.
  destruct (run_repeat_update_frame action reward m n) as [Hs' Hlr].
  destruct (run_repeat_update_row action reward m Hs Hrow n) as [row Hr].
  rewrite Hs in Hs'. unfold a'.
  rewrite run_repeat_update, (update_learning_effect _ action reward Hs' Hr).
  fold a. fold a in Hlr, Hr. rewrite stored_value_learn, Hlr.
  rewrite (@stored_value_row a s action row Hr). rewrite <- Hlr.
  unfold learn.
  cbn [experience behaviors total_rewards learning_rate with_experience
       with_behaviors with_total_rewards].
  rewrite DictFacts.get_set_same. repeat split.
Qed.

(** *** Line 171 in binary64 *)

Section Binary64.
Import PrimFloat.
Local Open Scope float_scope.
Local Set Warnings "-inexact-float".


(** Why the numbers of a row are taken to be finite: three updates at
    learning rate 1.0 with the rewards 1e308, -1e308 and 1e308 take an
    entry from 0.0 to 1e308, to minus infinity and to NaN. *)
Example new_value_binary64_reaches_nan :
  new_value_binary64 0 1 1e308 = 1e308 /\
  new_value_binary64 1e308 1 (-1e308) = neg_infinity /\
  is_nan (new_value_binary64 neg_infinity 1 1e308) = true.
Proof. repeat split. Qed.

End Binary64.



(** The values of that sequence: 0, 0.1, 0.19, 0.271, 0.3439. *)
Example value_after_idle :
  value_after 0 "idle" 1 "user_login" observing == 0 /\
  value_after 1 "idle" 1 "user_login" observing == 1 # 10 /\
  value_after 2 "idle" 1 "user_login" observing == 19 # 100 /\
  value_after 3 "idle" 1 "user_login" observing == 271 # 1000 /\
  value_after 4 "idle" 1 "user_login" observing == 3439 # 10000.
Proof. repeat split. Qed.

(* ------------------------------------------------------------------ *)
(** ** Which calls can raise *)



(** A failure inside [update_learning] is logged at level ERROR. *)
Lemma update_learning_logs_failure action reward m s :
  current_state (self m) = Some s ->
  Dict.lookup s (experience (self m)) = None ->
  journal (env (snd (update_learning action reward m))) =
    journal (env m) ++
    [(ERROR, msg_update_error (agent_id (self m)) (KeyError s))].
Proof.
  destruct m as [a w]. cbn [self env]. intros Hs Hrow.
  unfold update_learning. step_m. rewrite Hs. step_m. rewrite Hrow.
  reflexivity.
Qed.

(** [choose_action] returns when there is something to choose from. *)
Lemma choose_action_returns m :
  behaviors (self m) <> [] ->
  (forall s, current_state (self m) = Some s -> state_row (self m) s <> []) ->
  exists action, fst (choose_action m) = Return action.
Proof.
  destruct m as [a w]. cbn [self]. intros Hb Hrow.
  assert (Hk : Dict.keys (behaviors a) <> []).
  { intros E. apply Hb. now apply DictFacts.keys_nil_iff. }
  unfold choose_action. step_m.
  destruct (current_state a) as [s|]; step_m.
  - specialize (Hrow s eq_refl).
    destruct (Qltb _ (exploration_rate a)); step_m.
    + match goal with |- context [random_choice ?xs ?m] =>
        destruct (random_choice_returns m Hk) as [x E];
        destruct (random_choice xs m) as [o m']
      end.
      cbn [fst] in E. subst o. step_m. eauto.
    + fold (state_row a s).
      match goal with |- context [max_key _ ?m] =>
        destruct (max_key_spec m Hrow) as (action & -> & _)
      end.
      step_m. eauto.
  - match goal with |- context [random_choice ?xs ?m] =>
      destruct (random_choice_returns m Hk) as [x E];
      destruct (random_choice xs m) as [o m']
    end.
    cbn [fst] in E. subst o. step_m. eauto.
Qed.

(** C1, where the code breaks it: an agent constructed with an empty
    behaviors mapping, whatever its rates, location and generator, raises
    [IndexError] from [choose_action] while no state is set
    ([random.choice] of an empty list), and [ValueError] once a state is set
    and the policy exploits ([max] of an empty row); [choose_action] has no
    [try] of its own. *)
Theorem choose_action_raises_without_behaviors :
  forall id lr path g,
    fst (choose_action (snd (__init__ id [] lr 0 path (blank_world g))))
      = Raise IndexError /\
    fst (choose_action
           (run [call_set_state "user_login"]
                (snd (__init__ id [] lr 0 path (blank_world g)))))
      = Raise ValueError.
Proof.
  intros id lr path g. split; [reflexivity|].
  destruct (@choose_action_exploits
              (run [call_set_state "user_login"]
                   (snd (__init__ id [] lr 0 path (blank_world g))))
              "user_login" (Qeq_refl 0) eq_refl) as [m' ->].
  reflexivity.
Qed.

(** [evolve] catches what [choose_action] raises: on the agent without
    behaviors the loop stops at its first iteration, the error is logged,
    nothing is saved and the empty history is returned. *)
Example evolve_catches_choose_action :
  fst (evolve 10 (Some ["user_login"; "wallet_connected"]) bare) = Return [] /\
  files (env (snd (evolve 10 (Some ["user_login"; "wallet_connected"]) bare)))
    = [] /\
  journal (env (snd (evolve 10 (Some ["user_login"; "wallet_connected"]) bare)))
    = journal (env bare) ++
      [(DEBUG, msg_state_updated "ontora_agent_001" "user_login");
       (ERROR, msg_evolve_error "ontora_agent_001" ValueError)].
Proof. repeat split. Qed.

(* ================================================================== *)
(** * Further properties of the methods *)

(** ** More on dictionaries *)

Section MoreDictFacts.
Context {V : Type}.
Implicit Types (d : Dict.t V) (k : string) (v : V).

Lemma set_unbound k v d :
  Dict.lookup k d = None -> Dict.set k v d = d ++ [(k, v)].
Proof.
  induction d as [|[k' v'] d IH]; simpl; [reflexivity|].
  destruct (String.eqb k k'); [discriminate|].
  intros H. now rewrite IH.
Qed.

Lemma length_set_bound k v d :
  Dict.contains k d = true -> length (Dict.set k v d) = length d.
Proof.
  unfold Dict.contains.
  induction d as [|[k' v'] d IH]; simpl; [discriminate|].
  destruct (String.eqb k k'); simpl; [reflexivity|].
  intros H. now rewrite IH.
Qed.

Lemma keys_fold_set_nodup (ks : list string) v : forall d,
  NoDup (Dict.keys d ++ ks) ->
  Dict.keys (fold_left (fun d k => Dict.set k v d) ks d) = Dict.keys d ++ ks.
Proof.
  induction ks as [|k ks IH]; intros d Hnd; simpl.
  - now rewrite app_nil_r.
  - assert (Hk : ~ In k (Dict.keys d)).
    { intros Hin. apply NoDup_remove_2 in Hnd. apply Hnd.
      apply in_or_app. now left. }
    rewrite IH; rewrite DictFacts.keys_set_unbound by exact Hk.
    + now rewrite <- app_assoc.
    + rewrite <- app_assoc. exact Hnd.
Qed.

(** A comprehension over distinct keys lists them in their order. *)
Lemma keys_comprehension_nodup (ks : list string) v :
  NoDup ks -> Dict.keys (Dict.comprehension ks v) = ks.
Proof.
  intros H. unfold Dict.comprehension.
  now rewrite keys_fold_set_nodup.
Qed.

End MoreDictFacts.

(* ------------------------------------------------------------------ *)
(** ** [set_state] and [get_summary] *)

Lemma set_state_files s m : files (env (snd (set_state s m))) = files (env m).
Proof.
  destruct m as [a w]. unfold set_state. step_m.
  destruct (Dict.contains s (experience a)); reflexivity.
Qed.

(** The table after [set_state]. *)
Lemma set_state_table s m :
  (Dict.contains s (experience (self m)) = true ->
   experience (self (snd (set_state s m))) = experience (self m)) /\
  (Dict.contains s (experience (self m)) = false ->
   experience (self (snd (set_state s m))) =
     experience (self m) ++ [(s, zero_row (self m))]).
Proof.
  rewrite (proj2 (set_state_spec s m)). unfold set_state_agent.
  change (experience (with_current_state (Some s) (self m)))
    with (experience (self m)).
  destruct (Dict.contains s (experience (self m))) eqn:E;
    split; try discriminate; intros _; [reflexivity|].
  cbn [experience with_experience]. apply set_unbound.
  now apply DictFacts.contains_false_lookup.
Qed.

(** X1. [set_state] returns normally and makes the state current; it
    assigns nothing else but, for a state the table does not have, one new
    row appended to the table: the rows already there, the row of a state
    seen before included, keep their learned values, and so do
    [behaviors], [total_rewards] and the files. *)
Theorem set_state_ensures_row :
  forall s m,
    let a := self m in
    let a' := self (snd (set_state s m)) in
    fst (set_state s m) = Return tt /\
    current_state a' = Some s /\
    behaviors a' = behaviors a /\
    total_rewards a' = total_rewards a /\
    files (env (snd (set_state s m))) = files (env m) /\
    (Dict.contains s (experience a) = true -> experience a' = experience a) /\
    (Dict.contains s (experience a) = false ->
     experience a' = experience a ++ [(s, zero_row a)]).
Proof.
  intros s m a a'. unfold a'.
  split; [apply set_state_spec|].
  split; [|split; [|split; [|split; [apply set_state_files|]]]].
  - rewrite (proj2 (set_state_spec s m)). unfold set_state_agent.
    destruct (Dict.contains s _); reflexivity.
  - rewrite (proj2 (set_state_spec s m)). unfold set_state_agent.
    destruct (Dict.contains s _); reflexivity.
  - rewrite (proj2 (set_state_spec s m)). unfold set_state_agent.
    destruct (Dict.contains s _); reflexivity.
  - apply set_state_table.
Qed.

(** X2. The row [set_state] creates for a state not seen before has an
    entry for exactly the keys of [behaviors], each with value 0.0; when
    the keys of [behaviors] are distinct, as those of a Python dictionary
    are, the row lists them in the order of [behaviors]. *)
Theorem set_state_creates_zero_row :
  forall s m,
    Dict.contains s (experience (self m)) = false ->
    exists row,
      Dict.lookup s (experience (self (snd (set_state s m)))) = Some row /\
      (forall k, In k (Dict.keys row) <-> In k (Dict.keys (behaviors (self m)))) /\
      (forall k, Dict.get k row 0 = 0) /\
      (forall k x, Dict.lookup k row = Some x -> x = 0) /\
      (NoDup (Dict.keys (behaviors (self m))) ->
       Dict.keys row = Dict.keys (behaviors (self m))).
Proof.
  intros s m Hnew. exists (zero_row (self m)).
  rewrite (proj2 (set_state_spec s m)). unfold set_state_agent.
  change (experience (with_current_state (Some s) (self m)))
    with (experience (self m)).
  rewrite Hnew. cbn [experience with_experience].
  rewrite DictFacts.lookup_set_same.
  split; [reflexivity|]. split; [|split; [|split]].
  - intros k. apply in_keys_zero_row.
  - intros k. apply zero_row_get.
  - intros k x. apply DictFacts.lookup_comprehension.
  - apply keys_comprehension_nodup.
Qed.

(** X2 at the agent of [main] observing its first state. *)
Lemma set_state_creates_zero_row_witness :
  Dict.contains "user_login" (experience (self demo)) = false /\
  exists row,
    Dict.lookup "user_login"
      (experience (self (snd (set_state "user_login" demo)))) = Some row /\
    forall k, Dict.get k row 0 = 0.
Proof.
  split; [reflexivity|].
  destruct (@set_state_creates_zero_row "user_login" demo eq_refl)
    as (row & Hrow & _ & Hzero & _).
  exists row. split; assumption.
Defined.

(** X3. [set_state] is idempotent: observing the same state twice in a
    row leaves the object as after the first time. *)
Theorem set_state_idempotent :
  forall s m,
    self (snd (set_state s (snd (set_state s m)))) = self (snd (set_state s m)).
Proof.
  intros s m. rewrite !(proj2 (set_state_spec _ _)).
  generalize (self m). intros a. unfold set_state_agent.
  change (experience (with_current_state (Some s) a)) with (experience a).
  destruct (Dict.contains s (experience a)) eqn:E.
  - change (experience (with_current_state (Some s)
                          (with_current_state (Some s) a)))
      with (experience a).
    now rewrite E.
  - match goal with
    | |- context [Dict.contains s (experience ?x)] =>
        assert (H : Dict.contains s (experience x) = true)
    end.
    { cbn [experience with_experience with_current_state].
      apply DictFacts.contains_in_keys, DictFacts.in_keys_set. now left. }
    now rewrite H.
Qed.

(** X4. [get_summary] reads without changing anything, and the count of
    states it reports grows by one with [set_state] on a state the table
    does not have and stays with [set_state] on one it has. *)
Theorem get_summary_counts_states :
  forall s m,
    snd (get_summary m) = m /\
    experience_states m = length (experience (self m)) /\
    experience_states (snd (set_state s m)) =
      if Dict.contains s (experience (self m))
      then experience_states m
      else S (experience_states m).
Proof.
  intros s m. split; [now destruct m|].
  assert (Hc : forall m', experience_states m' = length (experience (self m')))
    by (intros [a w]; reflexivity).
  split; [apply Hc|]. rewrite !Hc.
  destruct (set_state_table s m) as (Hold & Hnew).
  destruct (Dict.contains s (experience (self m))).
  - now rewrite (Hold eq_refl).
  - rewrite (Hnew eq_refl), length_app. cbn [length]. lia.
Qed.

(* ------------------------------------------------------------------ *)
(** ** [perform_action] and [choose_action] *)

(** The reward of [perform_action]: the weight of the action plus a noise
    drawn by [random.uniform(-0.1, 0.1)]. *)
Lemma perform_action_value action m :
  exists u,
    0 <= u /\ u < 1 /\
    fst (perform_action action m) =
      Return (Dict.get action (behaviors (self m)) 0 +
              (- (1 # 10) + ((1 # 10) - - (1 # 10)) * u)) /\
    off_log (env m) (env (snd (perform_action action m))).
Proof.
  destruct m as [a w]. unfold perform_action. step_m.
  eexists. split; [|split; [|split; [reflexivity|]]].
  - unfold Qle. cbn. rewrite Z.mul_1_r. apply N2Z.is_nonneg.
  - unfold Qlt. cbn. rewrite Z.mul_1_r.
    change (Z.pos two_53) with (Z.of_N (N.pos two_53)).
    apply N2Z.inj_lt, N.mod_upper_bound. discriminate.
  - intros p Hp. cbn. now apply lookup_log_line.
Qed.

(** X5. [perform_action] returns, for every action and in every state, a
    reward within 0.1 of the weight of the action in [behaviors], the
    weight of an action that [behaviors] does not have counting as 0.0; it
    assigns no attribute of the object. *)
Theorem perform_action_reward_bounds :
  forall action m,
    exists reward,
      fst (perform_action action m) = Return reward /\
      Dict.get action (behaviors (self m)) 0 - (1 # 10) <= reward /\
      reward <= Dict.get action (behaviors (self m)) 0 + (1 # 10) /\
      (Dict.contains action (behaviors (self m)) = false ->
       - (1 # 10) <= reward /\ reward <= 1 # 10) /\
      self (snd (perform_action action m)) = self m.
Proof.
  intros action m.
  destruct (perform_action_value action m) as (u & Hu0 & Hu1 & Hr & Hf).
  eexists. split; [exact Hr|].
  split; [lra|]. split; [lra|].
  split; [|apply perform_action_spec].
  intros Hno. apply DictFacts.contains_false_lookup in Hno.
  unfold Dict.get. rewrite Hno. split; lra.
Qed.

Lemma random_choice_files {A} (xs : list A) m :
  files (env (snd (random_choice xs m))) = files (env m).
Proof.
  destruct m as [a w]. unfold random_choice.
  destruct xs as [|x xs]; step_m; [reflexivity|].
  match goal with |- context [nth_error ?l ?i] => destruct (nth_error l i) end;
    reflexivity.
Qed.

(** [choose_action] writes no file but the log, where the warning of
    line 119 goes. *)
Lemma choose_action_files m :
  off_log (env m) (env (snd (choose_action m))).
Proof.
  destruct m as [a w]. intros p Hp. unfold choose_action. step_m.
  destruct (current_state a) as [s|]; step_m.
  - destruct (Qltb _ (exploration_rate a)); step_m.
    + match goal with |- context [random_choice ?xs ?m] =>
        pose proof (random_choice_files xs m) as Hf;
        destruct (random_choice xs m) as [[x|e] m']
      end; step_m; cbn in Hf; now rewrite Hf.
    + case_max; reflexivity.
  - match goal with |- context [random_choice ?xs ?m] =>
      pose proof (random_choice_files xs m) as Hf;
      destruct (random_choice xs m) as [[x|e] m']
    end; step_m; cbn in Hf; rewrite Hf; now apply lookup_log_line.
Qed.

(** X6. [choose_action] assigns no attribute of the object, whether it
    returns or raises; it writes no file, but for the record of its
    warning in the log file when no state is set; and an action it
    returns is a key of [behaviors] or a key of the row of the current
    state. *)
Theorem choose_action_reads_only :
  forall m,
    self (snd (choose_action m)) = self m /\
    (forall path, path <> log_file ->
       Dict.lookup path (files (env (snd (choose_action m)))) =
       Dict.lookup path (files (env m))) /\
    (current_state (self m) <> None ->
     files (env (snd (choose_action m))) = files (env m)) /\
    (forall action,
       fst (choose_action m) = Return action ->
       In action (Dict.keys (behaviors (self m))) \/
       exists s, current_state (self m) = Some s /\
                 In action (Dict.keys (state_row (self m) s))).
Proof.
  intros m. split; [apply choose_action_self|].
  split; [apply choose_action_files|].
  split; [|intros action H; exact (choose_action_choosable m H)].
  destruct m as [a w]. cbn [self env]. intros Hs.
  unfold choose_action. step_m.
  destruct (current_state a) as [s|]; [|congruence]. step_m.
  destruct (Qltb _ (exploration_rate a)); step_m.
  - match goal with |- context [random_choice ?xs ?m] =>
      pose proof (random_choice_files xs m) as Hf;
      destruct (random_choice xs m) as [[x|e] m']
    end; step_m; exact Hf.
  - case_max; reflexivity.
Qed.

(** X7. While no state is set, and whenever [exploration_rate] is at
    least 1, [choose_action] does not consult the table: with a non-empty
    [behaviors] it returns one of its keys. *)
Theorem choose_action_explores :
  forall m,
    current_state (self m) = None \/ 1 <= exploration_rate (self m) ->
    behaviors (self m) <> [] ->
    exists action,
      fst (choose_action m) = Return action /\
      In action (Dict.keys (behaviors (self m))).
Proof.
  intros [a w]. cbn [self]. intros Hcase Hb.
  assert (Hk : Dict.keys (behaviors a) <> []).
  { intros E. apply Hb. now apply DictFacts.keys_nil_iff. }
  unfold choose_action. step_m.
  destruct (current_state a) as [s|]; step_m.
  - destruct Hcase as [Hcase|Her]; [discriminate|].
    match goal with |- context [Qltb ?u _] =>
      assert (Hu : Qltb u (exploration_rate a) = true)
    end.
    { apply Qltb_true. eapply Qlt_le_trans; [|exact Her].
      unfold Qlt. cbn. rewrite Z.mul_1_r.
      change (Z.pos two_53) with (Z.of_N (N.pos two_53)).
      apply N2Z.inj_lt, N.mod_upper_bound. discriminate. }
    rewrite Hu.
    match goal with |- context [random_choice ?xs ?m] =>
      destruct (random_choice_returns m Hk) as [x E];
      pose proof (@random_choice_in _ xs m x) as Hin;
      destruct (random_choice xs m) as [o m']
    end.
    cbn [fst] in *. subst o. step_m. eauto.
  - match goal with |- context [random_choice ?xs ?m] =>
      destruct (random_choice_returns m Hk) as [x E];
      pose proof (@random_choice_in _ xs m x) as Hin;
      destruct (random_choice xs m) as [o m']
    end.
    cbn [fst] in *. subst o. step_m. eauto.
Qed.

(** X7 at the agent of [main] before any state is set. *)
Lemma choose_action_explores_witness :
  current_state (self demo) = None /\
  exists action,
    fst (choose_action demo) = Return action /\
    In action (Dict.keys (behaviors (self demo))).
Proof.
  split; [reflexivity|].
  exact (@choose_action_explores demo (or_introl eq_refl) ltac:(discriminate)).
Defined.

(** X8. [choose_action] returns an action whenever [behaviors] is not
    empty and the row of the current state, if a state is set, is not
    empty either; it raises, [IndexError] from [random.choice] or
    [ValueError] from [max], whenever both are empty. *)
Theorem choose_action_returns_or_raises :
  forall m,
    (behaviors (self m) <> [] ->
     (forall s, current_state (self m) = Some s ->
                state_row (self m) s <> []) ->
     exists action, fst (choose_action m) = Return action) /\
    (behaviors (self m) = [] ->
     (forall s, current_state (self m) = Some s ->
                state_row (self m) s = []) ->
     fst (choose_action m) = Raise IndexError \/
     fst (choose_action m) = Raise ValueError).
Proof.
  intros m. split; [apply choose_action_returns|].
  destruct m as [a w]. cbn [self]. intros Hb Hrow.
  unfold choose_action. step_m. rewrite Hb. cbn [Dict.keys map].
  destruct (current_state a) as [s|]; step_m; [|now left].
  fold (state_row a s). rewrite (Hrow s eq_refl).
  destruct (Qltb _ (exploration_rate a)); step_m; [now left | now right].
Qed.


(* ------------------------------------------------------------------ *)
(** ** [update_learning] off its main path *)

(** X10. With no current state, [update_learning] assigns nothing: it
    logs a warning and returns, the object as before. *)
Theorem update_learning_without_state :
  forall action reward m,
    current_state (self m) = None ->
    fst (update_learning action reward m) = Return tt /\
    self (snd (update_learning action reward m)) = self m /\
    journal (env (snd (update_learning action reward m))) =
      journal (env m) ++ [(WARNING, msg_no_state_update (agent_id (self m)))].
Proof.
  intros action reward [a w]. cbn [self env]. intros Hs.
  unfold update_learning. step_m. rewrite Hs. step_m.
  destruct a; cbn in *; subst; repeat split.
Qed.

(** X10 at the agent of [main] before any state is set. *)
Lemma update_learning_without_state_witness :
  current_state (self demo) = None /\
  self (snd (update_learning "idle" 1 demo)) = self demo.
Proof.
  split; [reflexivity|].
  exact (proj1 (proj2 (@update_learning_without_state "idle" 1 demo eq_refl))).
Defined.

(** X11. With a current state that has no row in the table,
    [update_learning] assigns nothing either: the [KeyError] of the row
    lookup is caught, logged as an error, and the call returns, the object
    as before. *)
Theorem update_learning_missing_row :
  forall action reward m s,
    current_state (self m) = Some s ->
    Dict.lookup s (experience (self m)) = None ->
    fst (update_learning action reward m) = Return tt /\
    self (snd (update_learning action reward m)) = self m /\
    journal (env (snd (update_learning action reward m))) =
      journal (env m) ++
      [(ERROR, msg_update_error (agent_id (self m)) (KeyError s))].
Proof.
  intros action reward [a w] s. cbn [self env]. intros Hs Hrow.
  unfold update_learning. step_m. rewrite Hs. step_m. rewrite Hrow. step_m.
  repeat split.
Qed.

(** X11 at the agent of [main] after it saved, observed a state and
    reloaded. *)
Lemma update_learning_missing_row_witness :
  current_state (self reloaded) = Some "user_login" /\
  Dict.lookup "user_login" (experience (self reloaded)) = None /\
  self (snd (update_learning "idle" 1 reloaded)) = self reloaded.
Proof.
  split; [reflexivity|]. split; [reflexivity|].
  exact (proj1 (proj2 (@update_learning_missing_row "idle" 1 reloaded
                         "user_login" eq_refl eq_refl))).
Defined.

(* ------------------------------------------------------------------ *)
(** ** Repeated [update_learning]: totals *)

(** X12. The weight of an action and the total reward accumulate,
    with nothing to bound or decay them: after [n] calls
    [update_learning(action, reward)] in a current state that has its row,
    [behaviors[action]] is its former value (0.0 when absent) with
    [learning_rate * reward] added to it [n] times, and [total_rewards] its
    former value with [reward] added to it [n] times. *)
Theorem update_learning_accumulates :
  forall m s row action reward n,
    current_state (self m) = Some s ->
    Dict.lookup s (experience (self m)) = Some row ->
    let a' := self (run (repeat (call_update_learning action reward) n) m) in
    Dict.get action (behaviors a') 0 =
      Nat.iter n (fun weight => weight + learning_rate (self m) * reward)
               (Dict.get action (behaviors (self m)) 0) /\
    total_rewards a' =
      Nat.iter n (fun total => total + reward) (total_rewards (self m)).
Proof.
  intros m s row action reward n Hs Hrow.
  induction n as [|n [IHb IHt]]; cbn zeta in *.
  - split; reflexivity.
  - destruct (@run_repeat_update_step action reward s m n Hs
                (ex_intro _ row Hrow)) as (Ht & Hb & _).
    rewrite Ht, Hb, IHb, IHt. split; reflexivity.
Qed.

(** X12 at the agent of [main]: three rewards of 1 for ["idle"] at rate
    0.1 raise its weight from 0.1 by three times 0.1 and the total from 0
    to 3. *)
Lemma update_learning_accumulates_witness :
  current_state (self observing) = Some "user_login" /\
  Dict.get "idle"
    (behaviors (self (run (repeat (call_update_learning "idle" 1) 3) observing)))
    0 = (1 # 10) + (1 # 10) * 1 + (1 # 10) * 1 + (1 # 10) * 1 /\
  total_rewards
    (self (run (repeat (call_update_learning "idle" 1) 3) observing))
    = 0 + 1 + 1 + 1.
Proof.
  split; [reflexivity|].
  destruct (@update_learning_accumulates observing "user_login"
              [("stake_tokens", 0); ("claim_rewards", 0); ("analyze_data", 0);
               ("idle", 0)]
              "idle" 1 3%nat eq_refl eq_refl) as [Hb Ht].
  split; [rewrite Hb | rewrite Ht]; reflexivity.
Defined.

(* ------------------------------------------------------------------ *)
(** ** [save_config], [load_config] and [__init__] *)

(** X14. [save_config] returns normally and never changes the object;
    it leaves every file other than the one at [config_path] and the log
    file as it was.  When the location can be opened for writing and is
    not the log file, the file there holds afterwards exactly the document
    of the object, whatever it held before, and the save is logged; when
    it cannot (the empty path, a directory, a read-only file, a path below
    a missing directory), nothing is written but the record of the error,
    in the log. *)
Theorem save_config_replaces_only_its_file :
  forall m,
    fst (save_config m) = Return tt /\
    self (snd (save_config m)) = self m /\
    (forall path, path <> config_path (self m) -> path <> log_file ->
       Dict.lookup path (files (env (snd (save_config m)))) =
       Dict.lookup path (files (env m))) /\
    (writable (config_path (self m)) (env m) ->
     config_path (self m) <> log_file ->
     Dict.lookup (config_path (self m)) (files (env (snd (save_config m)))) =
       written (Dict.lookup (config_path (self m)) (files (env m)))
               (Object (document_of (self m) (clock (env m)))) /\
     journal (env (snd (save_config m))) =
       journal (env m) ++
       [(INFO, msg_saved (agent_id (self m)) (config_path (self m)))]) /\
    (~ writable (config_path (self m)) (env m) ->
     files (env (snd (save_config m))) = log_line (files (env m)) /\
     journal (env (snd (save_config m))) =
       journal (env m) ++ [(ERROR, msg_save_error (agent_id (self m)) OSError)]).
Proof.
  intros m. split; [apply save_config_spec|]. split; [apply save_config_spec|].
  split; [|split; [apply save_config_writes | apply save_config_blocked]].
  intros path Hp Hl. now apply save_config_files.
Qed.



Lemma load_config_agent_idempotent w a :
  load_config_agent w (load_config_agent w a) = load_config_agent w a.
Proof.
  unfold load_config_agent at 2.
  destruct (readable (Dict.lookup (config_path a) (files w)))
    as [[| |c]|] eqn:E;
    try (unfold load_config_agent; now rewrite E).
  destruct (is_string (cfg_agent_id c) (agent_id a)) eqn:Ei;
    unfold load_config_agent;
    cbn [config_path agent_id behaviors with_total_rewards with_experience
         with_behaviors];
    rewrite E, Ei; [|reflexivity].
  destruct (cfg_behaviors c); reflexivity.
Qed.

(** What [load_config] makes of an object depends on the file at its
    location only. *)
Lemma load_config_agent_ext w w' a :
  Dict.lookup (config_path a) (files w') = Dict.lookup (config_path a) (files w) ->
  load_config_agent w' a = load_config_agent w a.
Proof. intros E. unfold load_config_agent. now rewrite E. Qed.

(** Once a record of the log was written, the log file holds no record
    of an agent. *)
Lemma load_config_agent_log_file fs j g c k a :
  config_path a = log_file ->
  load_config_agent (mk_world (log_line fs) j g c k) a = a.
Proof.
  intros E. unfold load_config_agent. cbn [files]. rewrite E.
  now destruct (readable_log_line fs) as [-> | ->].
Qed.

(** Every [load_config] leaves a record in the log. *)
Lemma load_config_logged m :
  exists fs, files (env (snd (load_config m))) = log_line fs.
Proof.
  destruct m as [a w]. unfold load_config. step_m.
  destruct (Dict.lookup (config_path a) (files w))
    as [[|[| |c]|[| |c]|t|]|] eqn:E;
    step_m; rewrite ?E; step_m; eauto;
    destruct (is_string (cfg_agent_id c) (agent_id a)); step_m; eauto.
Qed.

(** X16. [load_config] is idempotent: a second load right after a first
    one leaves the object as the first one left it. *)
Theorem load_config_idempotent :
  forall m,
    self (snd (load_config (snd (load_config m)))) = self (snd (load_config m)).
Proof.
  intros m.
  rewrite (proj2 (load_config_spec (snd (load_config m)))).
  rewrite (proj2 (load_config_spec m)).
  set (a1 := load_config_agent (env m) (self m)).
  assert (Hp : config_path a1 = config_path (self m))
    by apply load_config_agent_rates.
  destruct (String.eqb_spec (config_path (self m)) log_file) as [E|E].
  - destruct (load_config_logged m) as [fs Hfs].
    destruct (env (snd (load_config m))) as [fs1 j1 g1 c1 k1].
    cbn [files] in Hfs. subst fs1.
    apply load_config_agent_log_file. now rewrite Hp.
  - rewrite (@load_config_agent_ext (env m) (env (snd (load_config m))) a1).
    + apply load_config_agent_idempotent.
    + rewrite Hp. now apply load_config_files.
Qed.

(** X17. When the location can hold a record (a path that is not empty
    nor the log file, and names nothing where a file can be created, or a
    file open to reading and writing), [save_config] followed by
    [load_config] on the same object leaves the object exactly as it
    was. *)
Theorem save_config_then_load_config_is_identity :
  forall m,
    storable (config_path (self m)) (env m) ->
    self (snd (load_config (snd (save_config m)))) = self m.
Proof.
  intros m Hw. pose proof (save_config_stores m Hw) as Hfile.
  rewrite (proj2 (load_config_spec _)), (proj2 (save_config_spec m)).
  unfold load_config_agent. rewrite Hfile.
  cbn [readable document_of cfg_agent_id cfg_behaviors cfg_experience
       cfg_total_rewards is_string or_default].
  rewrite String.eqb_refl. now destruct (self m).
Qed.

(** X17 at the agent of [main] after one step of learning. *)
Lemma save_config_then_load_config_is_identity_witness :
  storable (config_path (self learner)) (env learner) /\
  self (snd (load_config (snd (save_config learner)))) = self learner.
Proof.
  assert (Hw : storable (config_path (self learner)) (env learner)).
  { split; [discriminate|]. split; [discriminate|]. now left. }
  split; [exact Hw|].
  now apply save_config_then_load_config_is_identity.
Defined.

(** X18. Construction always succeeds.  The new object has the identity,
    the location and the rates given and no current state.  When the
    location holds a readable record of the same identity, and is not the
    log file, each of behaviors, table and total is the record's, or, for
    a key the record lacks, the constructor's behaviors, the empty table,
    zero.  When the location holds no readable record of that identity,
    the object holds the constructor's behaviors, an empty table and a
    zero total. *)
Theorem init_defaults_unless_matching_record :
  forall id b lr er path w,
    let a := self (snd (__init__ id b lr er path w)) in
    fst (__init__ id b lr er path w) = Return tt /\
    agent_id a = id /\ config_path a = path /\ current_state a = None /\
    learning_rate a = lr /\ exploration_rate a = er /\
    (forall c,
       path <> log_file ->
       readable (Dict.lookup path (files w)) = Some (Object c) ->
       cfg_agent_id c = Some id ->
       behaviors a = or_default (cfg_behaviors c) b /\
       experience a = or_default (cfg_experience c) [] /\
       total_rewards a = or_default (cfg_total_rewards c) 0) /\
    ((forall c, readable (Dict.lookup path (files w)) = Some (Object c) ->
                cfg_agent_id c <> Some id) ->
     a = new_agent id b lr er path).
Proof.
  intros id b lr er path w a. unfold a.
  split; [apply init_spec|].
  rewrite (proj2 (init_spec id b lr er path w)).
  destruct (load_config_agent_rates (after_record w) (new_agent id b lr er path))
    as (-> & -> & -> & -> & ->).
  repeat (split; [reflexivity|]).
  assert (Hlog : path = log_file ->
                 load_config_agent (after_record w) (new_agent id b lr er path) =
                 new_agent id b lr er path).
  { intros E. now apply load_config_agent_log_file. }
  split.
  - intros c Hp Hc Hid.
    rewrite load_config_agent_after_record by exact Hp.
    unfold load_config_agent. cbn [config_path agent_id new_agent].
    rewrite Hc. apply is_string_true in Hid. rewrite Hid. repeat split.
  - intros Hno.
    destruct (String.eqb_spec path log_file) as [E|E]; [now apply Hlog|].
    rewrite load_config_agent_after_record by exact E.
    unfold load_config_agent. cbn [config_path agent_id new_agent].
    destruct (readable (Dict.lookup path (files w))) as [[| |c]|] eqn:Hc; auto.
    destruct (is_string (cfg_agent_id c) id) eqn:Ei; auto.
    apply is_string_true in Ei. now destruct (Hno c eq_refl).
Qed.

(* ------------------------------------------------------------------ *)
(** ** [evolve] *)

(** [update_learning] writes no file but the log. *)
Lemma update_learning_files action reward m :
  off_log (env m) (env (snd (update_learning action reward m))).
Proof.
  destruct m as [a w]. intros p Hp. unfold update_learning. step_m.
  destruct (current_state a) as [s|]; step_m;
    [|now apply lookup_log_line].
  destruct (Dict.lookup s (experience a)) as [row|]; step_m;
    [reflexivity | now apply lookup_log_line].
Qed.

Lemma contains_existsb {V} (s : string) (d : Dict.t V) :
  Dict.contains s d = existsb (String.eqb s) (Dict.keys d).
Proof.
  unfold Dict.contains.
  induction d as [|[k v] d IH]; simpl; [reflexivity|].
  destruct (String.eqb s k); [reflexivity | exact IH].
Qed.

(** A complete row of an object with behaviors is not empty. *)
Lemma healthy_row_not_empty a s row :
  healthy a -> Dict.lookup s (experience a) = Some row -> row <> [].
Proof.
  intros (Hb & _ & Hc) Hrow ->.
  destruct (behaviors a) as [|[k v] b] eqn:E; [now apply Hb|].
  specialize (Hc s [] Hrow k). rewrite E in Hc.
  specialize (Hc (or_introl eq_refl)). discriminate.
Qed.

Lemma set_state_agent_healthy s a : healthy a -> healthy (set_state_agent s a).
Proof.
  intros (Hb & Hin & Hc). split; [|split].
  - unfold set_state_agent. destruct (Dict.contains s _); exact Hb.
  - now apply (@set_state_agent_settled (Dict.keys (behaviors a)) s a).
  - now apply set_state_agent_complete.
Qed.

Lemma learn_healthy s action reward row a :
  healthy a -> current_state a = Some s ->
  Dict.lookup s (experience a) = Some row ->
  In action (Dict.keys (behaviors a)) ->
  healthy (learn s action reward row a) /\
  Dict.keys (behaviors (learn s action reward row a)) = Dict.keys (behaviors a) /\
  Dict.keys (experience (learn s action reward row a)) = Dict.keys (experience a).
Proof.
  intros (Hb & Hin & Hc) Hs Hrow Hact.
  assert (E : update_learning_agent action reward a =
              learn s action reward row a).
  { unfold update_learning_agent. now rewrite Hs, Hrow. }
  assert (Hk : Dict.keys (behaviors (learn s action reward row a)) =
               Dict.keys (behaviors a)).
  { unfold learn.
    cbn [experience behaviors with_experience with_behaviors
         with_total_rewards].
    now apply DictFacts.keys_set_bound. }
  split; [|split; [exact Hk|]].
  - rewrite <- E. split; [|split].
    + rewrite E. intros Hnil. apply Hb. apply DictFacts.keys_nil_iff.
      rewrite <- Hk, Hnil. reflexivity.
    + now apply (@update_learning_agent_settled
                   (Dict.keys (behaviors a)) action reward a).
    + now apply update_learning_agent_complete.
  - unfold learn.
    cbn [experience behaviors with_experience with_behaviors
         with_total_rewards].
    apply DictFacts.keys_set_bound, DictFacts.in_keys_lookup.
    rewrite Hrow. discriminate.
Qed.

(** One iteration of the loop on a healthy object: it returns its entry,
    and what it leaves. *)
Lemma evolve_iteration_healthy s m :
  healthy (self m) ->
  exists entry m',
    evolve_iteration s m = (Return entry, m') /\
    h_state entry = s /\
    In (h_action entry) (Dict.keys (behaviors (self m))) /\
    h_total_rewards entry = total_rewards (self m) + h_reward entry /\
    total_rewards (self m') = total_rewards (self m) + h_reward entry /\
    healthy (self m') /\
    Dict.keys (behaviors (self m')) = Dict.keys (behaviors (self m)) /\
    Dict.keys (experience (self m')) =
      note_state (Dict.keys (experience (self m))) s /\
    off_log (env m) (env m') /\
    agent_id (self m') = agent_id (self m) /\
    config_path (self m') = config_path (self m).
Proof.
  intros Hh. unfold evolve_iteration, bind.
  (* set_state *)
  destruct (set_state_spec s m) as [E1 S1].
  pose proof (set_state_files s m) as F1.
  destruct (set_state s m) as [o1 m1]. cbn [fst snd] in *. subst o1.
  assert (Hh1 : healthy (self m1)) by (rewrite S1; now apply set_state_agent_healthy).
  assert (Hs1 : current_state (self m1) = Some s).
  { rewrite S1. unfold set_state_agent. destruct (Dict.contains s _); reflexivity. }
  destruct (@set_state_agent_has_row s (self m) s) as [row Hrow].
  { unfold set_state_agent. destruct (Dict.contains s _); reflexivity. }
  rewrite <- S1 in Hrow.
  assert (Hb1 : behaviors (self m1) = behaviors (self m)).
  { rewrite S1. unfold set_state_agent. destruct (Dict.contains s _); reflexivity. }
  assert (Ht1 : total_rewards (self m1) = total_rewards (self m)).
  { rewrite S1. unfold set_state_agent. destruct (Dict.contains s _); reflexivity. }
  assert (Hi1 : agent_id (self m1) = agent_id (self m) /\
                config_path (self m1) = config_path (self m)).
  { rewrite S1. unfold set_state_agent. destruct (Dict.contains s _); split; reflexivity. }
  assert (Hk1 : Dict.keys (experience (self m1)) =
                note_state (Dict.keys (experience (self m))) s).
  { rewrite S1. unfold set_state_agent, note_state.
    change (experience (with_current_state (Some s) (self m)))
      with (experience (self m)).
    rewrite <- contains_existsb.
    destruct (Dict.contains s (experience (self m))) eqn:Ec; [reflexivity|].
    cbn [experience with_experience].
    apply DictFacts.keys_set_unbound. intros Hin.
    apply DictFacts.contains_in_keys in Hin. congruence. }
  (* choose_action *)
  destruct (@choose_action_returns m1) as [action E2].
  { apply Hh1. }
  { intros s' Hs'. rewrite Hs1 in Hs'. injection Hs' as <-.
    unfold state_row, Dict.get. rewrite Hrow.
    now apply (@healthy_row_not_empty (self m1) s row Hh1 Hrow). }
  pose proof (choose_action_self m1) as S2.
  pose proof (choose_action_files m1) as F2.
  pose proof (choose_action_choosable m1 E2) as C2.
  destruct (choose_action m1) as [o2 m2]. cbn [fst snd] in *. subst o2.
  assert (Hact : In action (Dict.keys (behaviors (self m1)))).
  { apply (@choosable_settled (Dict.keys (behaviors (self m1))) (self m1));
      [|exact C2].
    split; [apply Hh1 | reflexivity]. }
  (* perform_action *)
  destruct (perform_action_spec action m2) as [[reward E3] S3].
  destruct (perform_action_value action m2) as (_ & _ & _ & _ & F3).
  destruct (perform_action action m2) as [o3 m3]. cbn [fst snd] in *. subst o3.
  (* update_learning *)
  assert (Hs3 : current_state (self m3) = Some s) by now rewrite S3, S2.
  assert (Hrow3 : Dict.lookup s (experience (self m3)) = Some row)
    by now rewrite S3, S2.
  pose proof (update_learning_effect m3 action reward Hs3 Hrow3) as S4.
  pose proof (update_learning_files action reward m3) as F4.
  destruct (update_learning_spec action reward m3) as [E4 _].
  destruct (update_learning action reward m3) as [o4 m4].
  cbn [fst snd] in *. subst o4.
  rewrite S3, S2 in S4.
  destruct (@learn_healthy s action reward row (self m1) Hh1 Hs1 Hrow Hact)
    as (Hh4 & Hkb4 & Hke4).
  rewrite <- S4 in Hh4, Hkb4, Hke4.
  assert (Ht4 : total_rewards (self m4) = total_rewards (self m) + reward).
  { rewrite S4, <- Ht1. reflexivity. }
  assert (Hi4 : agent_id (self m4) = agent_id (self m) /\
                config_path (self m4) = config_path (self m)).
  { rewrite S4. exact Hi1. }
  (* the entry *)
  destruct m4 as [a4 w4]. step_m. cbn [self env] in *.
  eexists. eexists. split; [reflexivity|].
  cbn [h_state h_action h_reward h_total_rewards self env files].
  split; [reflexivity|]. split; [now rewrite <- Hb1|].
  split; [exact Ht4|]. split; [exact Ht4|]. split; [exact Hh4|].
  split; [now rewrite Hkb4, Hb1|]. split; [now rewrite Hke4|].
  split; [|exact Hi4].
  intros p Hp. cbn [files]. rewrite lookup_log_line by exact Hp.
  rewrite (F4 p Hp), (F3 p Hp), (F2 p Hp). now rewrite F1.
Qed.

(** The loop on a healthy object runs to its end. *)
Lemma evolve_loop_healthy its : forall history m,
  healthy (self m) ->
  exists entries m',
    evolve_loop its history m = (history ++ entries, (Return tt, m')) /\
    map h_state entries = its /\
    Forall (fun e => In (h_action e) (Dict.keys (behaviors (self m)))) entries /\
    map h_total_rewards entries =
      running_totals (total_rewards (self m)) (map h_reward entries) /\
    total_rewards (self m') =
      fold_left Qplus (map h_reward entries) (total_rewards (self m)) /\
    healthy (self m') /\
    Dict.keys (behaviors (self m')) = Dict.keys (behaviors (self m)) /\
    Dict.keys (experience (self m')) =
      fold_left note_state its (Dict.keys (experience (self m))) /\
    off_log (env m) (env m') /\
    agent_id (self m') = agent_id (self m) /\
    config_path (self m') = config_path (self m).
Proof.
  induction its as [|s its IH]; intros history m Hh.
  - exists [], m. cbn [evolve_loop map fold_left running_totals].
    rewrite app_nil_r.
    split; [reflexivity|]. split; [reflexivity|]. split; [constructor|].
    split; [reflexivity|]. split; [reflexivity|]. split; [exact Hh|].
    repeat split.
  - destruct (@evolve_iteration_healthy s m Hh)
      as (entry & m1 & E & Hst & Hact & Het & Ht & Hh1 & Hkb & Hke & Hf & Hid & Hcp).
    destruct (IH (history ++ [entry]) m1 Hh1)
      as (entries & m' & E' & Hst' & Hact' & Het' & Ht' & Hh' & Hkb' & Hke'
          & Hf' & Hid' & Hcp').
    exists (entry :: entries), m'.
    cbn [evolve_loop]. rewrite E, E', <- app_assoc.
    cbn [map fold_left running_totals app].
    split; [reflexivity|]. split; [now rewrite Hst, Hst'|].
    split.
    { constructor; [exact Hact|]. now rewrite <- Hkb. }
    split; [now rewrite Het, Het', Ht|].
    split; [now rewrite Ht', Ht|].
    split; [exact Hh'|]. split; [now rewrite Hkb', Hkb|].
    split; [now rewrite Hke', Hke|].
    split; [exact (off_log_trans Hf Hf')|].
    split; [now rewrite Hid', Hid | now rewrite Hcp', Hcp].
Qed.

(** [evolve] on a healthy object: the whole loop, then [save_config]. *)
Lemma evolve_healthy num_iterations state_sequence m :
  healthy (self m) ->
  exists history m1,
    fst (evolve num_iterations state_sequence m) = Return history /\
    snd (evolve num_iterations state_sequence m) = snd (save_config m1) /\
    map h_state history = iterations_of num_iterations state_sequence /\
    Forall (fun e => In (h_action e) (Dict.keys (behaviors (self m)))) history /\
    map h_total_rewards history =
      running_totals (total_rewards (self m)) (map h_reward history) /\
    total_rewards (self m1) =
      fold_left Qplus (map h_reward history) (total_rewards (self m)) /\
    healthy (self m1) /\
    Dict.keys (behaviors (self m1)) = Dict.keys (behaviors (self m)) /\
    Dict.keys (experience (self m1)) =
      fold_left note_state (iterations_of num_iterations state_sequence)
                (Dict.keys (experience (self m))) /\
    off_log (env m) (env m1) /\
    agent_id (self m1) = agent_id (self m) /\
    config_path (self m1) = config_path (self m).
Proof.
  intros Hh.
  destruct (@evolve_loop_healthy (iterations_of num_iterations state_sequence)
              [] m Hh) as (history & m1 & E & Hrest).
  exists history, m1. split; [|split; [|exact Hrest]].
  - unfold evolve. unfold iterations_of in E. cbv zeta. rewrite E.
    cbn [app]. unfold bind, try_except.
    destruct (save_config_spec m1) as [Es _].
    destruct (save_config m1) as [o m2]. cbn [fst] in Es. subst o.
    reflexivity.
  - unfold evolve. unfold iterations_of in E. cbv zeta. rewrite E.
    cbn [app]. unfold bind, try_except.
    destruct (save_config_spec m1) as [Es _].
    destruct (save_config m1) as [o m2]. cbn [fst] in Es. subst o.
    reflexivity.
Qed.

Lemma existsb_eqb_in (s : string) (ks : list string) :
  existsb (String.eqb s) ks = true <-> In s ks.
Proof.
  rewrite existsb_exists. split.
  - intros (x & Hx & E). apply String.eqb_eq in E. now subst.
  - intros H. exists s. split; [exact H | apply String.eqb_refl].
Qed.

Lemma note_state_in ks s x : In x (note_state ks s) <-> In x ks \/ x = s.
Proof.
  unfold note_state. destruct (existsb (String.eqb s) ks) eqn:E.
  - apply existsb_eqb_in in E. split; [auto | intros [H| ->]; assumption].
  - rewrite in_app_iff. cbn [In]. intuition congruence.
Qed.

Lemma fold_note_state_in its : forall ks x,
  In x (fold_left note_state its ks) <-> In x ks \/ In x its.
Proof.
  induction its as [|s its IH]; intros ks x; cbn [fold_left In].
  - tauto.
  - rewrite IH, note_state_in. intuition congruence.
Qed.

Lemma fold_note_state_fresh its : forall ks,
  NoDup (ks ++ its) -> fold_left note_state its ks = ks ++ its.
Proof.
  induction its as [|s its IH]; intros ks Hnd; cbn [fold_left].
  - now rewrite app_nil_r.
  - assert (Hs : existsb (String.eqb s) ks = false).
    { destruct (existsb (String.eqb s) ks) eqn:E; [|reflexivity].
      apply existsb_eqb_in in E. apply NoDup_remove_2 in Hnd.
      exfalso. apply Hnd, in_or_app. now left. }
    replace (note_state ks s) with (ks ++ [s])
      by (unfold note_state; now rewrite Hs).
    rewrite IH; rewrite <- app_assoc; [reflexivity | exact Hnd].
Qed.

(** X19. On an object with at least one behavior whose rows have exactly
    the actions of [behaviors], [evolve] processes every state of its
    sequence: it returns one history entry per state, in order, each with
    an action that is a key of [behaviors]; afterwards every state of the
    sequence has a row, the keys of [behaviors] are as before, and the
    object is fit for another run. *)
Theorem evolve_processes_every_state :
  forall num_iterations state_sequence m,
    healthy (self m) ->
    let m' := snd (evolve num_iterations state_sequence m) in
    exists history,
      fst (evolve num_iterations state_sequence m) = Return history /\
      map h_state history = iterations_of num_iterations state_sequence /\
      Forall (fun e => In (h_action e) (Dict.keys (behaviors (self m))))
             history /\
      (forall s, In s (iterations_of num_iterations state_sequence) ->
                 Dict.contains s (experience (self m')) = true) /\
      Dict.keys (behaviors (self m')) = Dict.keys (behaviors (self m)) /\
      healthy (self m').
Proof.
  intros n ss m Hh m'.
  destruct (@evolve_healthy n ss m Hh)
    as (history & m1 & Er & Em & Hst & Hact & _ & _ & Hh1 & Hkb & Hke & _).
  exists history. unfold m'. rewrite Em, (proj2 (save_config_spec m1)).
  repeat split; try assumption.
  - intros s Hs. apply DictFacts.contains_in_keys.
    rewrite Hke, fold_note_state_in. now right.
  - apply Hh1.
  - apply Hh1.
  - apply Hh1.
Qed.

(** X19 on the run of [main]. *)
Lemma evolve_processes_every_state_witness :
  healthy (self demo) /\
  exists history,
    fst (evolve 10 (Some ["user_login"; "wallet_connected"; "low_balance";
                          "high_activity"; "transaction_failed"]) demo)
      = Return history /\
    map h_state history =
      ["user_login"; "wallet_connected"; "low_balance"; "high_activity";
       "transaction_failed"].
Proof.
  assert (H : healthy (self demo)).
  { split; [discriminate | now apply empty_table_rows]. }
  split; [exact H|].
  destruct (@evolve_processes_every_state 10
              (Some ["user_login"; "wallet_connected"; "low_balance";
                     "high_activity"; "transaction_failed"]) demo H)
    as (history & Hr & Hs & _).
  exists history. split; assumption.
Defined.

(** X20. On such an object the rewards of a run add up: the
    [total_rewards] recorded in each history entry is the total before the
    run plus the rewards of the entries up to it, and the object's
    [total_rewards] after the run is the total before plus all the
    rewards of the history. *)
Theorem evolve_accumulates_rewards :
  forall num_iterations state_sequence m,
    healthy (self m) ->
    exists history,
      fst (evolve num_iterations state_sequence m) = Return history /\
      map h_total_rewards history =
        running_totals (total_rewards (self m)) (map h_reward history) /\
      total_rewards (self (snd (evolve num_iterations state_sequence m))) =
        fold_left Qplus (map h_reward history) (total_rewards (self m)).
Proof.
  intros n ss m Hh.
  destruct (@evolve_healthy n ss m Hh)
    as (history & m1 & Er & Em & _ & _ & Het & Ht & _).
  exists history. rewrite Em, (proj2 (save_config_spec m1)).
  repeat split; assumption.
Qed.

(** X20 on a run of two states of the agent of [main]. *)
Lemma evolve_accumulates_rewards_witness :
  healthy (self demo) /\
  exists history,
    fst (evolve 10 (Some ["user_login"; "wallet_connected"]) demo)
      = Return history /\
    total_rewards
      (self (snd (evolve 10 (Some ["user_login"; "wallet_connected"]) demo))) =
      fold_left Qplus (map h_reward history) (total_rewards (self demo)).
Proof.
  assert (H : healthy (self demo)).
  { split; [discriminate | now apply empty_table_rows]. }
  split; [exact H|].
  destruct (@evolve_accumulates_rewards 10
              (Some ["user_login"; "wallet_connected"]) demo H)
    as (history & Hr & _ & Ht).
  exists history. split; assumption.
Defined.

(** X21. On such an object, when the location can hold a record (a path
    that is not empty nor the log file, and names nothing where a file can
    be created, or a file open to reading and writing), [evolve] ends by
    saving: an agent constructed afterwards with the same identity and
    location has the behaviors, the table and the total that the run
    left. *)
Theorem evolve_saves_final_state :
  forall num_iterations state_sequence m b' lr' er',
    healthy (self m) ->
    storable (config_path (self m)) (env m) ->
    let m' := snd (evolve num_iterations state_sequence m) in
    let restored :=
      self (snd (__init__ (agent_id (self m)) b' lr' er'
                          (config_path (self m)) (env m'))) in
    behaviors restored = behaviors (self m') /\
    experience restored = experience (self m') /\
    total_rewards restored = total_rewards (self m').
Proof.
  intros n ss m b' lr' er' Hh Hw m' restored.
  destruct (@evolve_healthy n ss m Hh)
    as (history & m1 & _ & Em & _ & _ & _ & _ & _ & _ & _ & Hf & Hid & Hcp).
  assert (Hw1 : storable (config_path (self m1)) (env m1)).
  { destruct Hw as (Hne & Hlog & Hw). unfold storable.
    rewrite Hcp, (Hf _ Hlog). auto. }
  pose proof (save_config_stores m1 Hw1) as Hfile.
  destruct Hw as (_ & Hlog & _).
  unfold restored, m'. rewrite Em, (proj2 (save_config_spec m1)).
  rewrite (proj2 (init_spec _ _ _ _ _ _)).
  rewrite load_config_agent_after_record by exact Hlog.
  unfold load_config_agent. cbn [config_path agent_id new_agent].
  rewrite <- Hcp, Hfile, <- Hid.
  cbn [readable document_of cfg_agent_id is_string]. rewrite String.eqb_refl.
  repeat split.
Qed.

(** X21 on a run of two states of the agent of [main]. *)
Lemma evolve_saves_final_state_witness :
  healthy (self demo) /\
  storable (config_path (self demo)) (env demo) /\
  experience
    (self (snd (__init__ "ontora_agent_001" [] (5 # 10) (1 # 10)
                  "agent_001_config.json"
                  (env (snd (evolve 10 (Some ["user_login"; "wallet_connected"])
                                    demo))))))
  = experience
      (self (snd (evolve 10 (Some ["user_login"; "wallet_connected"]) demo))).
Proof.
  assert (H : healthy (self demo)).
  { split; [discriminate | now apply empty_table_rows]. }
  assert (Hw : storable (config_path (self demo)) (env demo)).
  { split; [discriminate|]. split; [discriminate|]. now left. }
  split; [exact H|]. split; [exact Hw|].
  exact (proj1 (proj2
    (@evolve_saves_final_state 10 (Some ["user_login"; "wallet_connected"])
       demo [] (5 # 10) (1 # 10) H Hw))).
Defined.

(** With neither behaviors nor table, the first iteration raises. *)
Lemma evolve_iteration_raises s m :
  behaviors (self m) = [] -> experience (self m) = [] ->
  exists e m',
    evolve_iteration s m = (Raise e, m') /\
    (e = IndexError \/ e = ValueError) /\
    files (env m') = files (env m) /\
    agent_id (self m') = agent_id (self m) /\
    journal (env m') =
      journal (env m) ++ [(DEBUG, msg_state_updated (agent_id (self m)) s)].
Proof.
  destruct m as [[id b lr er path ex cs t] w]. cbn [self env behaviors experience].
  intros -> ->. unfold evolve_iteration, set_state, choose_action. step_m.
  unfold Dict.get. cbn [Dict.lookup]. rewrite String.eqb_refl.
  unfold max_key. cbn [Dict.keys map].
  destruct (Qltb _ er); step_m; eexists; eexists;
    (split; [reflexivity|]); repeat split; auto.
Qed.

(** X22. On an object with neither behaviors nor table, [evolve] over a
    non-empty sequence stops in its first iteration: the exception of
    [choose_action] is caught and logged as an error, the history returned
    is empty, and nothing is saved: after the record of [set_state] the
    journal has that error only, and the files have changed by its line in
    the log only. *)
Theorem evolve_stops_without_behaviors :
  forall num_iterations state_sequence m,
    behaviors (self m) = [] ->
    experience (self m) = [] ->
    iterations_of num_iterations state_sequence <> [] ->
    fst (evolve num_iterations state_sequence m) = Return [] /\
    files (env (snd (evolve num_iterations state_sequence m))) =
      log_line (files (env m)) /\
    exists s rest e,
      iterations_of num_iterations state_sequence = s :: rest /\
      (e = IndexError \/ e = ValueError) /\
      journal (env (snd (evolve num_iterations state_sequence m))) =
        journal (env m) ++
        [(DEBUG, msg_state_updated (agent_id (self m)) s);
         (ERROR, msg_evolve_error (agent_id (self m)) e)].
Proof.
  intros n ss m Hb He Hits. unfold evolve.
  change (match ss with
          | Some (s :: ss0) => s :: ss0
          | _ => placeholder_states n
          end) with (iterations_of n ss).
  destruct (iterations_of n ss) as [|s its]; [congruence|].
  destruct (@evolve_iteration_raises s m Hb He)
    as (e & m1 & E & Hek & Hf & Hid & Hj).
  cbv zeta. cbn [evolve_loop]. rewrite E.
  destruct m1 as [a1 w1]. step_m. cbn [self env] in *.
  split; [reflexivity|]. split; [now rewrite Hf|].
  exists s, its, e. split; [reflexivity|]. split; [exact Hek|].
  now rewrite Hid, Hj, <- app_assoc.
Qed.

(** X22 at the agent constructed with no behaviors. *)
Lemma evolve_stops_without_behaviors_witness :
  behaviors (self bare) = [] /\ experience (self bare) = [] /\
  fst (evolve 10 (Some ["user_login"; "wallet_connected"]) bare) = Return [].
Proof.
  split; [reflexivity|]. split; [reflexivity|].
  apply evolve_stops_without_behaviors; [reflexivity | reflexivity | discriminate].
Defined.

(** X23. With no state to iterate over, that is with no or an empty
    sequence and a number of iterations of zero or less, [evolve] returns
    the empty history, leaves the object as it is and still saves it: where
    the location can hold a record, the file there is the document of the
    object afterwards. *)
Theorem evolve_without_states :
  forall num_iterations state_sequence m,
    (num_iterations <= 0)%Z ->
    state_sequence = None \/ state_sequence = Some [] ->
    fst (evolve num_iterations state_sequence m) = Return [] /\
    self (snd (evolve num_iterations state_sequence m)) = self m /\
    (storable (config_path (self m)) (env m) ->
     Dict.lookup (config_path (self m))
       (files (env (snd (evolve num_iterations state_sequence m)))) =
     Some (Regular (Object (document_of (self m) (clock (env m)))))).
Proof.
  intros n ss m Hn Hss.
  assert (Hits : iterations_of n ss = []).
  { assert (Hp : placeholder_states n = []).
    { unfold placeholder_states.
      replace (Z.to_nat n) with 0%nat by lia. reflexivity. }
    destruct Hss as [-> | ->]; exact Hp. }
  unfold evolve.
  change (match ss with
          | Some (s :: ss0) => s :: ss0
          | _ => placeholder_states n
          end) with (iterations_of n ss).
  rewrite Hits. cbv zeta. cbn [evolve_loop]. unfold bind, try_except.
  destruct (save_config_spec m) as [Es Ss].
  pose proof (save_config_stores m) as Hw.
  destruct (save_config m) as [o m1]. cbn [fst snd] in *. subst o.
  cbn [fst snd ret]. unfold ret. cbn [fst snd].
  repeat split; assumption.
Qed.

(** X23 at the agent of [main]. *)
Lemma evolve_without_states_witness :
  fst (evolve 0 (Some []) learner) = Return [] /\
  self (snd (evolve 0 (Some []) learner)) = self learner.
Proof.
  destruct (@evolve_without_states 0 (Some []) learner
              ltac:(discriminate) (or_intror eq_refl)) as (H1 & H2 & _).
  split; assumption.
Defined.

Lemma NoDup_map_injective {A B} (f : A -> B) (l : list A) :
  (forall x y, f x = f y -> x = y) -> NoDup l -> NoDup (map f l).
Proof.
  intros Hf. induction 1 as [|x l Hx Hl IH]; cbn [map]; constructor.
  - rewrite in_map_iff. intros (y & Hy & Hin). apply Hf in Hy. now subst.
  - exact IH.
Qed.

(** The placeholder states are as many as the iterations asked for, and
    distinct. *)
Lemma placeholder_states_distinct num_iterations :
  length (placeholder_states num_iterations) = Z.to_nat num_iterations /\
  NoDup (placeholder_states num_iterations).
Proof.
  unfold placeholder_states. split.
  - now rewrite length_map, length_seq.
  - apply NoDup_map_injective; [|apply seq_NoDup].
    intros x y H. cbn in H. injection H as H.
    apply (f_equal NilEmpty.uint_of_string) in H.
    rewrite !NilEmpty.usu in H. injection H as H.
    apply (f_equal Nat.of_uint) in H.
    now rewrite !Unsigned.of_to in H.
Qed.

(** X24. Given no sequence, or an empty one, [evolve] runs over the
    placeholder states [state_0], [state_1], ...: on an object with at
    least one behavior and an empty table it leaves exactly
    [num_iterations] rows, keyed by these names in order, and
    [get_summary] then counts [num_iterations] states (none when the
    number is negative). *)
Theorem evolve_placeholder_rows :
  forall num_iterations m,
    behaviors (self m) <> [] ->
    experience (self m) = [] ->
    evolve num_iterations (Some []) m = evolve num_iterations None m /\
    Dict.keys (experience (self (snd (evolve num_iterations None m)))) =
      placeholder_states num_iterations /\
    experience_states (snd (evolve num_iterations None m)) =
      Z.to_nat num_iterations.
Proof.
  intros n m Hb He.
  assert (Hh : healthy (self m)).
  { split; [exact Hb | now apply empty_table_rows]. }
  destruct (@evolve_healthy n None m Hh)
    as (history & m1 & _ & Em & _ & _ & _ & _ & _ & _ & Hke & _).
  destruct (placeholder_states_distinct n) as [Hlen Hnd].
  assert (Hk : Dict.keys (experience (self (snd (evolve n None m)))) =
               placeholder_states n).
  { rewrite Em, (proj2 (save_config_spec m1)), Hke, He.
    cbn [iterations_of Dict.keys map].
    now rewrite fold_note_state_fresh. }
  split; [reflexivity|]. split; [exact Hk|].
  assert (Hc : forall m', experience_states m' =
                          length (Dict.keys (experience (self m')))).
  { intros [a w]. unfold Dict.keys. now rewrite length_map. }
  now rewrite Hc, Hk.
Qed.

(** X24 at the agent of [main] asked for three iterations. *)
Lemma evolve_placeholder_rows_witness :
  behaviors (self demo) <> [] /\ experience (self demo) = [] /\
  Dict.keys (experience (self (snd (evolve 3 None demo)))) =
    ["state_0"; "state_1"; "state_2"].
Proof.
  split; [discriminate|]. split; [reflexivity|].
  exact (proj1 (proj2 (@evolve_placeholder_rows 3 demo
                         ltac:(discriminate) eq_refl))).
Defined.
